(** * Item store service (flask_api): a shallow embedding of
    [app/routes.py] and [app/__init__.py], and the properties of its
    item resource lifecycle. *)

From Stdlib Require Import ZArith String List Lia.
From Stdlib Require Import Floats.SpecFloat.
From stdpp Require Import base option list gmap strings sorting.

Set Warnings "-register-all".

Open Scope string_scope.
Open Scope Z_scope.
Open Scope list_scope.

(** ** Python values and the operators the handlers apply to them *)

Module Py.

(** What [request.get_json()] hands to a handler: the value built by
    Python's [json] module.  [JNull] is Python's [None]; an object is a
    [dict] with string keys; a number is an [int] or a [float]. *)
Inductive json : Type :=
| JNull
| JBool (b : bool)
| JInt (z : Z)
| JFloat (f : spec_float)
| JStr (s : string)
| JArr (l : list json)
| JObj (m : gmap string json).

Inductive exn : Type := TypeError | KeyError.

Inductive result (A : Type) : Type :=
| Ok (a : A)
| Raise (e : exn).
Arguments Ok {A} a.
Arguments Raise {A} e.

(** [bool(d)]: the truth value tested by [not d] and [if d]. *)
Definition truthy (d : json) : bool :=
  match d with
  | JNull => false
  | JBool b => b
  | JInt z => negb (Z.eqb z 0)
  | JFloat (S754_zero _) => false
  | JFloat _ => true
  | JStr s => negb (Nat.eqb (String.length s) 0)
  | JArr l => negb (Nat.eqb (length l) 0)
  | JObj m => negb (Nat.eqb (size m) 0)
  end.

(** [needle in hay] on two [str]: substring test. *)
Fixpoint str_contains (needle hay : string) : bool :=
  String.prefix needle hay
  || match hay with
     | EmptyString => false
     | String _ rest => str_contains needle rest
     end.

(** [key == x] for a [str] key: only an equal [str] compares equal. *)
Definition str_eq (key : string) (x : json) : bool :=
  match x with
  | JStr s => String.eqb key s
  | _ => false
  end.

(** [key in d] for a [str] key: key membership on a dict, element
    membership on a list, substring on a str; the other values are not
    iterable. *)
Definition contains (key : string) (d : json) : result bool :=
  match d with
  | JObj m => Ok (bool_decide (is_Some (m !! key)))
  | JArr l => Ok (existsb (str_eq key) l)
  | JStr s => Ok (str_contains key s)
  | JNull | JBool _ | JInt _ | JFloat _ => Raise TypeError
  end.

(** [d[key]] for a [str] key: only a dict can be indexed by a str. *)
Definition getitem (d : json) (key : string) : result json :=
  match d with
  | JObj m => match m !! key with
              | Some v => Ok v
              | None => Raise KeyError
              end
  | _ => Raise TypeError
  end.

(** [isinstance(d, dict) and key in d]: the body is a JSON object
    carrying [key]. *)
Definition has_key (key : string) (d : json) : bool :=
  match d with
  | JObj m => bool_decide (is_Some (m !! key))
  | _ => false
  end.

End Py.
Export Py.

(** ** The store and the HTTP responses *)

(** An element of the module-level list [items]: the dict
    [{'id': ..., 'name': ...}]. *)
Record Item : Type := mkItem { id : Z; name : json }.

(** The initial value of the module-level [items]. *)
Definition initial_items : list Item := [].

(** A response: status code and JSON body. *)
Record response : Type := mkResponse { status : Z; body : json }.

(** An item as [jsonify] serialises it. *)
Definition item_json (item : Item) : json :=
  JObj {[ "id" := JInt (id item); "name" := name item ]}.

(** [jsonify(d)] with the default status, and [jsonify(d), code]. *)
Definition jsonify (d : gmap string json) : response :=
  {| status := 200; body := JObj d |}.

Definition with_status (r : response) (code : Z) : response :=
  {| status := code; body := body r |}.

(** ** Handlers: state (the global [items]) and exceptions *)

(** A view function reads and rebinds or mutates the global [items] and
    either returns or raises; what it did to the store before raising
    stays done. *)
Definition handler (A : Type) : Type := list Item → result A * list Item.

Definition ret {A} (a : A) : handler A := λ items, (Ok a, items).

Definition bind {A B} (c : handler A) (k : A → handler B) : handler B :=
  λ items,
    match c items with
    | (Ok a, items') => k a items'
    | (Raise e, items') => (Raise e, items')
    end.

(** Evaluation of a pure expression that may raise. *)
Definition eval {A} (r : result A) : handler A := λ items, (r, items).

Definition read_items : handler (list Item) := λ items, (Ok items, items).

Definition write_items (new : list Item) : handler unit := λ _, (Ok tt, new).

Declare Scope handler_scope.
Delimit Scope handler_scope with handler.
Notation "x <- c ;; k" := (bind c (λ x, k))
  (at level 100, c at next level, right associativity) : handler_scope.
Notation "c ;; k" := (bind c (λ _, k))
  (at level 100, right associativity) : handler_scope.
Open Scope handler_scope.

(** [not data or 'name' not in data]; [or] does not evaluate its right
    operand when the left one is true. *)
Definition name_missing (data : json) : result bool :=
  if negb (truthy data) then Ok true
  else match contains "name" data with
       | Ok b => Ok (negb b)
       | Raise e => Raise e
       end.

(** [next((item for item in items if item['id'] == item_id), None)]:
    the first item with that id, together with its position in the list
    (the dict found is the one stored there, not a copy). *)
Definition next_item (item_id : Z) (items : list Item) : option (nat * Item) :=
  list_find (λ item, id item = item_id) items.

(** The two error answers of the item routes. *)
Definition bad_request : response :=
  with_status
    (jsonify {[ "error" := JStr "Bad Request";
                "message" := JStr "Name is required" ]}) 400.

Definition item_not_found : response :=
  with_status (jsonify {[ "error" := JStr "Item not found" ]}) 404.

(** The view functions.  [data] is the value of [request.get_json()].
    The test [if item:] on the result of [next] succeeds exactly when an
    item was found: an item dict has two keys, so it is never falsy. *)
Definition home : handler response :=
  ret (jsonify {[ "message" := JStr "Welcome to the Flask API!" ]}).

Definition get_items : handler response :=
  items <- read_items ;;
  ret (jsonify {[ "items" := JArr (item_json <$> items) ]}).

Definition add_item (data : json) : handler response :=
  missing <- eval (name_missing data) ;;
  if missing : bool then ret bad_request
  else
    items <- read_items ;;
    nm <- eval (getitem data "name") ;;
    let item := {| id := Z.of_nat (length items) + 1; name := nm |} in
    write_items (items ++ [item]) ;;
    ret (with_status (jsonify {[ "item" := item_json item ]}) 201).

Definition get_item (item_id : Z) : handler response :=
  items <- read_items ;;
  match next_item item_id items with
  | Some (_, item) => ret (jsonify {[ "item" := item_json item ]})
  | None => ret item_not_found
  end.

(** [item['name'] = data['name']] evaluates the right-hand side first and
    then mutates the dict that sits in the list at the position found. *)
Definition update_item (item_id : Z) (data : json) : handler response :=
  missing <- eval (name_missing data) ;;
  if missing : bool then ret bad_request
  else
    items <- read_items ;;
    match next_item item_id items with
    | Some (i, item) =>
        nm <- eval (getitem data "name") ;;
        let item' := {| id := id item; name := nm |} in
        write_items (<[i := item']> items) ;;
        ret (jsonify {[ "item" := item_json item' ]})
    | None => ret item_not_found
    end.

(** The list comprehension builds a new list, to which the global is
    rebound. *)
Definition delete_item (item_id : Z) : handler response :=
  items <- read_items ;;
  match next_item item_id items with
  | Some _ =>
      write_items (filter (λ itm, id itm ≠ item_id) items) ;;
      ret (jsonify {[ "message" := JStr "Item deleted" ]})
  | None => ret item_not_found
  end.

(** ** The application: routing and the registered error handlers *)

(** The handlers [create_app] registers for 404 and 500. *)
Definition not_found : response :=
  with_status (jsonify {[ "error" := JStr "Not found" ]}) 404.

Definition internal_error (error : exn) : response :=
  with_status (jsonify {[ "error" := JStr "Internal server error" ]}) 500.

(** A request as it reaches the code of this repository: routed to one of
    the six view functions (the [<int:item_id>] converter has produced the
    integer, and [request.get_json()] has returned [data]), or matching no
    route.  What Flask answers by itself is not represented: a known path
    with a method no view accepts, and a body on which [get_json()] aborts
    instead of returning (no JSON content type, malformed JSON). *)
Inductive request : Type :=
| GET_home
| GET_items
| POST_items (data : json)
| GET_item (item_id : Z)
| PUT_item (item_id : Z) (data : json)
| DELETE_item (item_id : Z)
| Undefined_route.

Definition dispatch (r : request) : handler response :=
  match r with
  | GET_home => home
  | GET_items => get_items
  | POST_items data => add_item data
  | GET_item item_id => get_item item_id
  | PUT_item item_id data => update_item item_id data
  | DELETE_item item_id => delete_item item_id
  | Undefined_route => ret not_found
  end.

(** One request served by the application: an exception that escapes the
    view function is answered by the 500 handler. *)
Definition handle (r : request) (items : list Item) : response * list Item :=
  match dispatch r items with
  | (Ok resp, items') => (resp, items')
  | (Raise e, items') => (internal_error e, items')
  end.

(** A session: requests served one after the other on the shared store;
    the result pairs every request with its response. *)
Fixpoint serve (reqs : list request) (items : list Item)
  : list (request * response) * list Item :=
  match reqs with
  | [] => ([], items)
  | r :: rest =>
      let '(resp, items') := handle r items in
      let '(evs, items'') := serve rest items' in
      ((r, resp) :: evs, items'')
  end.

Definition successful_delete (ev : request * response) : bool :=
  match ev with
  | (DELETE_item _, resp) => status resp =? 200
  | _ => false
  end.

Definition successful_post (ev : request * response) : bool :=
  match ev with
  | (POST_items _, resp) => status resp =? 201
  | _ => false
  end.

Definition no_successful_delete (evs : list (request * response)) : bool :=
  forallb (λ ev, negb (successful_delete ev)) evs.

(** Number of items successfully created during a session. *)
Definition created_count (evs : list (request * response)) : nat :=
  length (List.filter successful_post evs).

(** ** Vocabulary for the statements *)

(** The sessions of the service: the events and the store reached from the
    initial store. *)
Definition session_events (reqs : list request) : list (request * response) :=
  fst (serve reqs initial_items).

Definition session_store (reqs : list request) : list Item :=
  snd (serve reqs initial_items).

(** The response of a successful creation. *)
Definition created (item : Item) : response :=
  with_status (jsonify {[ "item" := item_json item ]}) 201.

(** The response of a successful deletion. *)
Definition item_deleted : response :=
  {| status := 200; body := JObj {[ "message" := JStr "Item deleted" ]} |}.

(** The item [add_item] builds for a body whose name is [v]. *)
Definition new_item (items : list Item) (v : json) : Item :=
  {| id := Z.of_nat (length items) + 1; name := v |}.

(** The results [add_item] can produce, one constructor per exit. *)
Inductive add_outcome (data : json) (items : list Item)
  : result response * list Item → Prop :=
| add_created v :
    has_key "name" data = true → getitem data "name" = Ok v →
    add_outcome data items (Ok (created (new_item items v)),
                            items ++ [new_item items v])
| add_rejected :
    name_missing data = Ok true →
    add_outcome data items (Ok bad_request, items)
| add_raised e :
    has_key "name" data = false →
    add_outcome data items (Raise e, items).

(** The results [update_item] can produce, one constructor per exit. *)
Inductive update_outcome (item_id : Z) (data : json) (items : list Item)
  : result response * list Item → Prop :=
| update_done i item v :
    has_key "name" data = true → getitem data "name" = Ok v →
    next_item item_id items = Some (i, item) →
    update_outcome item_id data items
      (Ok (jsonify {[ "item" := item_json {| id := id item; name := v |} ]}),
       <[i := {| id := id item; name := v |}]> items)
| update_absent :
    name_missing data = Ok false →
    next_item item_id items = None →
    update_outcome item_id data items (Ok item_not_found, items)
| update_rejected :
    name_missing data = Ok true →
    update_outcome item_id data items (Ok bad_request, items)
| update_raised e :
    has_key "name" data = false →
    update_outcome item_id data items (Raise e, items).

(** The ids in the store are 1, 2, ..., n in store order. *)
Definition ids_consecutive (items : list Item) : Prop :=
  id <$> items = Z.of_nat <$> seq 1 (length items).

(** Request bodies used in the examples. *)
Definition apple : json := JObj {[ "name" := JStr "apple" ]}.
Definition banana : json := JObj {[ "name" := JStr "banana" ]}.
Definition cherry : json := JObj {[ "name" := JStr "cherry" ]}.
Definition date : json := JObj {[ "name" := JStr "date" ]}.

(** ** Evaluation lemmas for the handlers *)

Section Body.
Variables (m : gmap string json) (v : json).
Hypothesis Hname : m !! "name" = Some v.

Lemma truthy_obj : truthy (JObj m) = true.
Proof.
  cbn. destruct (size m) eqn:Hsz; [|reflexivity].
  apply map_size_empty_iff in Hsz. subst m.
  rewrite lookup_empty in Hname. discriminate.
Qed.

Lemma name_missing_obj : name_missing (JObj m) = Ok false.
Proof.
  unfold name_missing. rewrite truthy_obj. cbn.
  rewrite bool_decide_eq_true_2; [reflexivity | by eexists].
Qed.

Lemma getitem_obj : getitem (JObj m) "name" = Ok v.
Proof. cbn. by rewrite Hname. Qed.

Lemma add_item_obj items :
  add_item (JObj m) items =
  let item := {| id := Z.of_nat (length items) + 1; name := v |} in
  (Ok (created item), items ++ [item]).
Proof.
  unfold add_item, bind, eval, read_items, write_items, ret.
  rewrite name_missing_obj, getitem_obj. reflexivity.
Qed.

Lemma update_item_obj item_id items :
  update_item item_id (JObj m) items =
  match next_item item_id items with
  | Some (i, item) =>
      let item' := {| id := id item; name := v |} in
      (Ok (jsonify {[ "item" := item_json item' ]}), <[i := item']> items)
  | None => (Ok item_not_found, items)
  end.
Proof.
  unfold update_item, bind, eval, read_items, write_items, ret.
  rewrite name_missing_obj.
  destruct (next_item item_id items) as [[i item]|]; [|reflexivity].
  rewrite getitem_obj. reflexivity.
Qed.
End Body.

Lemma name_missing_spec data :
  name_missing data =
  if truthy data
  then match contains "name" data with
       | Ok b => Ok (negb b)
       | Raise e => Raise e
       end
  else Ok true.
Proof. unfold name_missing. by destruct (truthy data). Qed.

Lemma next_item_None item_id items :
  next_item item_id items = None ↔ Forall (λ item, id item ≠ item_id) items.
Proof. unfold next_item. apply list_find_None. Qed.

Lemma next_item_Some item_id items i item :
  next_item item_id items = Some (i, item) ↔
  items !! i = Some item ∧ id item = item_id ∧
  ∀ j y, items !! j = Some y → (j < i)%nat → id y ≠ item_id.
Proof. unfold next_item. rewrite list_find_Some. reflexivity. Qed.

Lemma next_item_elem item_id items item :
  item ∈ items → id item = item_id → is_Some (next_item item_id items).
Proof.
  intros Hin Hid. destruct (next_item item_id items) eqn:E; [by eexists|].
  apply next_item_None in E. rewrite Forall_forall in E.
  destruct (E item Hin Hid).
Qed.

Lemma get_item_eq item_id items :
  get_item item_id items =
  match next_item item_id items with
  | Some (_, item) => (Ok (jsonify {[ "item" := item_json item ]}), items)
  | None => (Ok item_not_found, items)
  end.
Proof.
  unfold get_item, bind, read_items, ret.
  by destruct (next_item item_id items) as [[? ?]|].
Qed.

Lemma delete_item_eq item_id items :
  delete_item item_id items =
  match next_item item_id items with
  | Some _ => (Ok (jsonify {[ "message" := JStr "Item deleted" ]}),
               filter (λ itm, id itm ≠ item_id) items)
  | None => (Ok item_not_found, items)
  end.
Proof.
  unfold delete_item, bind, read_items, write_items, ret.
  by destruct (next_item item_id items).
Qed.

(** ** The concrete scenario *)

(** C9. From the empty store, POST apple, POST banana, GET /items,
    DELETE /items/1, GET /items/1 answer 201 with item 1 "apple", 201 with
    item 2 "banana", 200 with both items in that order, 200 "Item deleted"
    and 404 "Item not found". *)
Theorem scenario_apple_banana :
  snd <$> session_events [POST_items apple; POST_items banana; GET_items;
                      DELETE_item 1; GET_item 1] =
  [ {| status := 201;
       body := JObj {[ "item" := JObj {[ "id" := JInt 1;
                                         "name" := JStr "apple" ]} ]} |};
    {| status := 201;
       body := JObj {[ "item" := JObj {[ "id" := JInt 2;
                                         "name" := JStr "banana" ]} ]} |};
    {| status := 200;
       body := JObj {[ "items" :=
                 JArr [ JObj {[ "id" := JInt 1; "name" := JStr "apple" ]};
                        JObj {[ "id" := JInt 2; "name" := JStr "banana" ]} ] ]} |};
    {| status := 200; body := JObj {[ "message" := JStr "Item deleted" ]} |};
    {| status := 404; body := JObj {[ "error" := JStr "Item not found" ]} |} ].
Proof. vm_compute. reflexivity. Qed.

(** ** What each handler can do to the store *)

(** A body passes the check [not data or 'name' not in data] only if it
    is a dict with the key, a list with the element or a str with the
    substring; only the first can be indexed by ['name']. *)
Lemma name_present_cases data :
  name_missing data = Ok false →
  (∃ m v, data = JObj m ∧ m !! "name" = Some v)
  ∨ (has_key "name" data = false ∧ getitem data "name" = Raise TypeError).
Proof.
  rewrite name_missing_spec.
  destruct data as [|b|z|f|s|l|m]; cbn.
  - discriminate.
  - destruct b; discriminate.
  - destruct (negb _); discriminate.
  - destruct f; discriminate.
  - intros _. by right.
  - intros _. by right.
  - destruct (negb _); [|discriminate].
    intros [= Hm%negb_false_iff%bool_decide_eq_true].
    destruct Hm as [v Hv]. left. by exists m, v.
Qed.

Lemma name_check_raises data e :
  name_missing data = Raise e → has_key "name" data = false.
Proof.
  rewrite name_missing_spec.
  destruct data as [|b|z|f|s|l|m]; cbn; try done.
  destruct (negb _); discriminate.
Qed.

Lemma add_item_outcome data items : add_outcome data items (add_item data items).
Proof.
  unfold add_item, bind, eval, read_items, write_items, ret.
  destruct (name_missing data) as [[]|e] eqn:Hm.
  - by constructor.
  - destruct (name_present_cases _ Hm) as [(m & v & -> & Hv)|[Hk Hg]].
    + rewrite (getitem_obj _ _ Hv).
      apply add_created; [|by apply getitem_obj].
      cbn. apply bool_decide_eq_true_2. by eexists.
    + rewrite Hg. by constructor.
  - constructor. by eapply name_check_raises.
Qed.

Lemma update_item_outcome item_id data items :
  update_outcome item_id data items (update_item item_id data items).
Proof.
  unfold update_item, bind, eval, read_items, write_items, ret.
  destruct (name_missing data) as [[]|e] eqn:Hm.
  - by constructor.
  - destruct (next_item item_id items) as [[i item]|] eqn:Hn;
      [|by constructor].
    destruct (name_present_cases _ Hm) as [(m & v & -> & Hv)|[Hk Hg]].
    + rewrite (getitem_obj _ _ Hv).
      apply update_done; [|by apply getitem_obj|done].
      cbn. apply bool_decide_eq_true_2. by eexists.
    + rewrite Hg. by constructor.
  - constructor. by eapply name_check_raises.
Qed.

(** Replacing the name of the item found by [next_item] keeps the ids. *)
Lemma update_keeps_ids item_id items i item v :
  next_item item_id items = Some (i, item) →
  id <$> <[i := {| id := id item; name := v |}]> items = id <$> items.
Proof.
  intros (Hi & _ & _)%next_item_Some.
  rewrite list_fmap_insert. cbn. apply list_insert_id.
  by rewrite list_lookup_fmap, Hi.
Qed.

(** ** Sessions without a successful DELETE *)

Lemma ids_consecutive_nil : ids_consecutive [].
Proof. reflexivity. Qed.

Lemma ids_consecutive_snoc items v :
  ids_consecutive items → ids_consecutive (items ++ [new_item items v]).
Proof.
  unfold ids_consecutive. intros H.
  rewrite fmap_app, length_app, H. cbn [length].
  rewrite Nat.add_1_r, seq_S, fmap_app. cbn.
  do 3 f_equal. lia.
Qed.

Lemma ids_consecutive_lookup items i item :
  ids_consecutive items → items !! i = Some item → id item = Z.of_nat i + 1.
Proof.
  unfold ids_consecutive. intros H Hi.
  assert (Hl : (id <$> items) !! i = Some (id item))
    by (by rewrite list_lookup_fmap, Hi).
  rewrite H, list_lookup_fmap in Hl.
  destruct (seq 1 (length items) !! i) as [k|] eqn:Hk; [|discriminate].
  apply lookup_seq in Hk as [-> _]. cbn in Hl. injection Hl as <-. lia.
Qed.

Lemma ids_consecutive_bound items item :
  ids_consecutive items → item ∈ items →
  1 ≤ id item ≤ Z.of_nat (length items).
Proof.
  intros H (i & Hi)%list_elem_of_lookup.
  rewrite (ids_consecutive_lookup _ _ _ H Hi).
  apply lookup_lt_Some in Hi. lia.
Qed.

Lemma ids_consecutive_sorted items :
  ids_consecutive items → StronglySorted Z.lt (id <$> items).
Proof.
  unfold ids_consecutive. intros ->.
  generalize 1%nat. induction (length items) as [|n IH]; intros k; cbn.
  - constructor.
  - constructor; [apply IH|].
    apply Forall_forall. intros z (j & -> & Hj%elem_of_seq)%list_elem_of_fmap.
    lia.
Qed.

Lemma sorted_lt_NoDup (l : list Z) : StronglySorted Z.lt l → NoDup l.
Proof.
  induction 1 as [|z l _ IH Hall]; constructor; [|done].
  intros Hin. rewrite Forall_forall in Hall. specialize (Hall _ Hin). lia.
Qed.

Lemma filter_id_none (items : list Item) k :
  Forall (λ item, id item ≠ k) items →
  filter (λ item, id item = k) items = [].
Proof.
  induction 1 as [|item items Hne _ IH]; [done|].
  by rewrite filter_cons_False.
Qed.

Lemma filter_other_ids_all (items : list Item) k :
  Forall (λ item, id item ≠ k) items →
  filter (λ item, id item ≠ k) items = items.
Proof.
  induction 1 as [|item items Hne _ IH]; [done|].
  rewrite filter_cons_True by done. by f_equal.
Qed.

Lemma NoDup_ids_one_match (items : list Item) k :
  NoDup (id <$> items) →
  (length (filter (λ item, id item = k) items) ≤ 1)%nat.
Proof.
  induction items as [|item items IH]; [cbn; lia|].
  rewrite fmap_cons. intros [Hnot Hnd]%NoDup_cons. specialize (IH Hnd).
  rewrite filter_cons. destruct (decide (id item = k)) as [<-|]; [|done].
  rewrite filter_id_none; [cbn; lia|].
  apply Forall_forall. intros y Hy Heq.
  apply Hnot. rewrite <- Heq. apply list_elem_of_fmap. by exists y.
Qed.

(** One request that is not a successful DELETE keeps the ids
    consecutive, and lengthens the store by one exactly when it is a
    successful POST. *)
Lemma handle_keeps_consecutive r items :
  ids_consecutive items →
  successful_delete (r, fst (handle r items)) = false →
  ids_consecutive (snd (handle r items))
  ∧ length (snd (handle r items)) =
    (length items + if successful_post (r, fst (handle r items)) then 1 else 0)%nat.
Proof.
  intros Hinv Hdel. unfold handle in *.
  destruct r as [| |data|k|k data|k|]; cbn [dispatch] in *.
  - cbn. split; [done|lia].
  - cbn. split; [done|lia].
  - destruct (add_item_outcome data items) as [v _ _| |e _]; cbn.
    + split; [by apply ids_consecutive_snoc|]. rewrite length_app. cbn. lia.
    + split; [done|lia].
    + split; [done|lia].
  - rewrite get_item_eq. destruct (next_item k items) as [[? ?]|]; cbn;
      (split; [done|lia]).
  - destruct (update_item_outcome k data items) as [i item v _ _ Hn| | |e _]; cbn;
      try (split; [done|lia]).
    split; [|rewrite length_insert; lia].
    unfold ids_consecutive.
    by rewrite (update_keeps_ids _ _ _ _ _ Hn), length_insert.
  - rewrite delete_item_eq in *. destruct (next_item k items); cbn in *.
    + discriminate.
    + split; [done|lia].
  - cbn. split; [done|lia].
Qed.

Lemma serve_cons r rest items :
  serve (r :: rest) items =
  ((r, fst (handle r items)) :: fst (serve rest (snd (handle r items))),
   snd (serve rest (snd (handle r items)))).
Proof.
  cbn [serve]. destruct (handle r items) as [resp items']. cbn [fst snd].
  by destruct (serve rest items').
Qed.

Lemma serve_keeps_consecutive reqs : ∀ items,
  ids_consecutive items →
  no_successful_delete (fst (serve reqs items)) = true →
  ids_consecutive (snd (serve reqs items))
  ∧ length (snd (serve reqs items)) =
    (length items + created_count (fst (serve reqs items)))%nat.
Proof.
  induction reqs as [|r rest IH]; intros items Hinv Hno.
  - cbn. split; [done|]. unfold created_count. cbn. lia.
  - rewrite serve_cons in *. cbn [fst snd] in *.
    unfold no_successful_delete in Hno. cbn [forallb] in Hno.
    apply andb_true_iff in Hno as [Hr%negb_true_iff Hrest].
    destruct (handle_keeps_consecutive r items Hinv Hr) as [Hinv' Hlen].
    destruct (IH _ Hinv' Hrest) as [Hfin Hlen'].
    split; [done|]. rewrite Hlen', Hlen.
    unfold created_count. cbn [List.filter].
    destruct (successful_post _); cbn [length]; lia.
Qed.

Lemma session_keeps_consecutive reqs :
  no_successful_delete (session_events reqs) = true →
  ids_consecutive (session_store reqs)
  ∧ length (session_store reqs) = created_count (session_events reqs).
Proof.
  intros Hno.
  by destruct (serve_keeps_consecutive reqs initial_items
                 ids_consecutive_nil Hno).
Qed.

(** ** Creation *)

(** C1. On every store, a POST /items whose body is an object with the
    key 'name' appends exactly one item, whose id is the length of the
    store at that moment plus 1 (the length right after the insertion),
    and answers 201 with that item; the id is a function of the current
    length alone, so two stores of equal length give the same id whatever
    was created or deleted before. *)
Theorem add_item_appends_length_plus_one
    (items : list Item) (m : gmap string json) (v : json) :
  m !! "name" = Some v →
  add_item (JObj m) items
  = (Ok (created (new_item items v)), items ++ [new_item items v])
  ∧ handle (POST_items (JObj m)) items
    = (created (new_item items v), items ++ [new_item items v])
  ∧ status (created (new_item items v)) = 201
  ∧ body (created (new_item items v))
    = JObj {[ "item" := JObj {[ "id" := JInt (Z.of_nat (length items) + 1);
                                "name" := v ]} ]}
  ∧ id (new_item items v) = Z.of_nat (length items) + 1
  ∧ id (new_item items v) = Z.of_nat (length (items ++ [new_item items v]))
  ∧ (∀ items' : list Item,
       length items' = length items →
       fst (handle (POST_items (JObj m)) items') = created (new_item items v))
  ∧ ∀ data : json,
      status (fst (handle (POST_items data) items)) = 201 →
      ∃ v' : json,
        getitem data "name" = Ok v'
        ∧ handle (POST_items data) items
          = (created (new_item items v'), items ++ [new_item items v']).
Proof.
  intros Hv.
  assert (Hadd := add_item_obj m v Hv).
  split; [apply Hadd|].
  split; [unfold handle; cbn [dispatch]; by rewrite Hadd|].
  do 3 (split; [reflexivity|]).
  split; [rewrite length_app; cbn; lia|].
  split.
  - intros items' Hlen. unfold handle. cbn [dispatch]. rewrite Hadd. cbn.
    unfold new_item. by rewrite Hlen.
  - intros data. unfold handle. cbn [dispatch].
    destruct (add_item_outcome data items) as [v' _ Hg| |e _]; cbn.
    + intros _. by exists v'.
    + discriminate.
    + discriminate.
Qed.

Lemma add_item_appends_length_plus_one_witness :
  handle (POST_items apple) []
  = (created (new_item [] (JStr "apple")), [new_item [] (JStr "apple")]).
Proof.
  exact (proj1 (proj2 (add_item_appends_length_plus_one
                         [] {[ "name" := JStr "apple" ]} (JStr "apple")
                         eq_refl))).
Defined.




(** C7. In every session from the empty store in which no DELETE
    succeeds, the ids in the store are strictly increasing in store order
    and pairwise distinct, the id a POST would assign next is larger than
    every id in the store, and each id is carried by at most one item. *)
Theorem no_delete_ids_strictly_increasing (reqs : list request) :
  no_successful_delete (session_events reqs) = true →
  StronglySorted Z.lt (id <$> session_store reqs)
  ∧ NoDup (id <$> session_store reqs)
  ∧ (∀ (item : Item) (v : json),
       item ∈ session_store reqs →
       id item < id (new_item (session_store reqs) v))
  ∧ ∀ k : Z,
      (length (filter (λ item, id item = k) (session_store reqs)) ≤ 1)%nat.
Proof.
  intros Hno.
  destruct (session_keeps_consecutive reqs Hno) as [Hinv _].
  assert (Hsorted := ids_consecutive_sorted _ Hinv).
  assert (Hnd := sorted_lt_NoDup _ Hsorted).
  repeat split; try done.
  - intros item v Hin. cbn.
    pose proof (ids_consecutive_bound _ _ Hinv Hin). lia.
  - intros k. by apply NoDup_ids_one_match.
Qed.

Lemma no_delete_ids_strictly_increasing_witness :
  StronglySorted Z.lt
    (id <$> session_store [POST_items apple; DELETE_item 7; POST_items banana;
                        PUT_item 1 cherry; POST_items date]).
Proof.
  exact (proj1 (no_delete_ids_strictly_increasing
                  [POST_items apple; DELETE_item 7; POST_items banana;
                   PUT_item 1 cherry; POST_items date] eq_refl)).
Defined.

(** ** Body validation *)

Lemma name_missing_falsy data : truthy data = false → name_missing data = Ok true.
Proof. intros H. by rewrite name_missing_spec, H. Qed.

Lemma name_missing_not_in data :
  contains "name" data = Ok false → name_missing data = Ok true.
Proof. intros H. rewrite name_missing_spec, H. by destruct (truthy data). Qed.

Lemma name_missing_no_key (m : gmap string json) :
  m !! "name" = None → name_missing (JObj m) = Ok true.
Proof.
  intros H. apply name_missing_not_in. cbn.
  rewrite bool_decide_eq_false_2; [done|]. rewrite H. by intros [? ?].
Qed.

Lemma name_missing_not_iterable data :
  truthy data = true → contains "name" data = Raise TypeError →
  name_missing data = Raise TypeError.
Proof. intros Ht Hc. by rewrite name_missing_spec, Ht, Hc. Qed.

Lemma add_item_check data items :
  add_item data items =
  match name_missing data with
  | Ok true => (Ok bad_request, items)
  | Ok false =>
      match getitem data "name" with
      | Ok v => (Ok (created (new_item items v)), items ++ [new_item items v])
      | Raise e => (Raise e, items)
      end
  | Raise e => (Raise e, items)
  end.
Proof.
  unfold add_item, bind, eval, read_items, write_items, ret.
  destruct (name_missing data) as [[]|]; reflexivity.
Qed.

Lemma update_item_check item_id data items :
  name_missing data ≠ Ok false →
  update_item item_id data items =
  match name_missing data with
  | Ok _ => (Ok bad_request, items)
  | Raise e => (Raise e, items)
  end.
Proof.
  unfold update_item, bind, eval, read_items, write_items, ret.
  by destruct (name_missing data) as [[]|].
Qed.

Lemma add_item_no_key_store data items :
  has_key "name" data = false →
  snd (add_item data items) = items
  ∧ (fst (add_item data items) = Ok bad_request
     ∨ ∃ e, fst (add_item data items) = Raise e).
Proof.
  intros Hk. destruct (add_item_outcome data items) as [v Hk' _| |e _].
  - congruence.
  - split; [done|by left].
  - split; [done|right; by exists e].
Qed.

(** C5, at the failing input.  POST /items with the JSON body [5], which
    has no key 'name', is answered 500 where the claim requires 400: the
    guard [not data or 'name' not in data] raises TypeError on a non-zero
    number, and likewise on [true].  The falsy bodies [0] and [false],
    which the same guard reaches, are answered 400 with 'Name is
    required'.  The store is unchanged in each case. *)
Theorem add_item_number_body_500 :
  has_key "name" (JInt 5) = false
  ∧ truthy (JInt 5) = true
  ∧ add_item (JInt 5) [] = (Raise TypeError, [])
  ∧ handle (POST_items (JInt 5)) []
    = ({| status := 500;
          body := JObj {[ "error" := JStr "Internal server error" ]} |}, [])
  ∧ handle (POST_items (JBool true)) []
    = ({| status := 500;
          body := JObj {[ "error" := JStr "Internal server error" ]} |}, [])
  ∧ handle (POST_items (JInt 0)) []
    = ({| status := 400;
          body := JObj {[ "error" := JStr "Bad Request";
                          "message" := JStr "Name is required" ]} |}, [])
  ∧ handle (POST_items (JBool false)) []
    = ({| status := 400;
          body := JObj {[ "error" := JStr "Bad Request";
                          "message" := JStr "Name is required" ]} |}, []).
Proof. repeat split. Qed.

(** Where the guard of POST /items does answer 400, on every store: when
    [get_json()] returned a falsy value ([None], [false], [0], an empty
    string, array or object), an object without the key 'name', or an
    array or a string for which ['name' in data] is false.  When the body
    is truthy and not iterable the guard raises.  For every body that is
    not an object with the key 'name' the store is unchanged. *)
Theorem add_item_without_name (items : list Item) :
  (∀ data, truthy data = false →
     handle (POST_items data) items = (bad_request, items))
  ∧ (∀ m : gmap string json, m !! "name" = None →
     handle (POST_items (JObj m)) items = (bad_request, items))
  ∧ (∀ data, contains "name" data = Ok false →
     handle (POST_items data) items = (bad_request, items))
  ∧ (∀ data, truthy data = true → contains "name" data = Raise TypeError →
     handle (POST_items data) items = (internal_error TypeError, items))
  ∧ (∀ data, has_key "name" data = false →
     snd (handle (POST_items data) items) = items)
  ∧ bad_request
    = {| status := 400;
         body := JObj {[ "error" := JStr "Bad Request";
                         "message" := JStr "Name is required" ]} |}.
Proof.
  unfold handle; cbn [dispatch]. repeat split.
  - intros data H. by rewrite add_item_check, name_missing_falsy.
  - intros m H. by rewrite add_item_check, name_missing_no_key.
  - intros data H. by rewrite add_item_check, name_missing_not_in.
  - intros data Ht Hc. by rewrite add_item_check, name_missing_not_iterable.
  - intros data Hk. destruct (add_item_no_key_store data items Hk) as [Hs _].
    destruct (add_item data items) as [[resp|e] items']; cbn in *; done.
Qed.

Lemma add_item_without_name_witness :
  handle (POST_items JNull) [new_item [] (JStr "apple")]
  = (bad_request, [new_item [] (JStr "apple")])
  ∧ handle (POST_items (JObj {[ "title" := JStr "apple" ]})) []
    = (bad_request, [])
  ∧ handle (POST_items (JArr [JInt 1])) [] = (bad_request, [])
  ∧ handle (POST_items (JBool true)) [] = (internal_error TypeError, [])
  ∧ snd (handle (POST_items (JStr "name")) []) = [].
Proof.
  split; [|split; [|split; [|split]]].
  - exact (proj1 (add_item_without_name _) JNull eq_refl).
  - exact (proj1 (proj2 (add_item_without_name _))
             {[ "title" := JStr "apple" ]} eq_refl).
  - exact (proj1 (proj2 (proj2 (add_item_without_name _)))
             (JArr [JInt 1]) eq_refl).
  - exact (proj1 (proj2 (proj2 (proj2 (add_item_without_name _))))
             (JBool true) eq_refl eq_refl).
  - exact (proj1 (proj2 (proj2 (proj2 (proj2 (add_item_without_name _)))))
             (JStr "name") eq_refl).
Defined.

(** C10, at the failing input.  PUT /items/1 with the JSON body [5] on
    the empty store (no item has id 1, and the body has no key 'name') is
    answered 500 where the claim requires 400: the guard raises TypeError
    on a non-zero number before the id is looked up, and likewise on
    [true].  The falsy bodies [0] and [false] are answered 400 for the
    same missing id.  The store is unchanged in each case. *)
Theorem update_item_number_body_500 :
  has_key "name" (JInt 5) = false
  ∧ next_item 1 [] = None
  ∧ update_item 1 (JInt 5) [] = (Raise TypeError, [])
  ∧ handle (PUT_item 1 (JInt 5)) []
    = ({| status := 500;
          body := JObj {[ "error" := JStr "Internal server error" ]} |}, [])
  ∧ handle (PUT_item 1 (JBool true)) []
    = ({| status := 500;
          body := JObj {[ "error" := JStr "Internal server error" ]} |}, [])
  ∧ handle (PUT_item 1 (JInt 0)) []
    = ({| status := 400;
          body := JObj {[ "error" := JStr "Bad Request";
                          "message" := JStr "Name is required" ]} |}, [])
  ∧ handle (PUT_item 1 (JBool false)) []
    = ({| status := 400;
          body := JObj {[ "error" := JStr "Bad Request";
                          "message" := JStr "Name is required" ]} |}, []).
Proof. repeat split. Qed.

(** Where the guard of PUT /items/{id} does answer 400 (not 404), on
    every store and for every id, whether or not an item has it: when
    [get_json()] returned a falsy value, an object without the key 'name',
    or an array or a string for which ['name' in data] is false; the body
    is checked before the id is looked up.  When the body is truthy and
    not iterable the guard raises.  The store is unchanged in all these
    cases. *)
Theorem update_item_body_checked_first (items : list Item) (item_id : Z) :
  (∀ data, truthy data = false →
     handle (PUT_item item_id data) items = (bad_request, items))
  ∧ (∀ m : gmap string json, m !! "name" = None →
     handle (PUT_item item_id (JObj m)) items = (bad_request, items))
  ∧ (∀ data, contains "name" data = Ok false →
     handle (PUT_item item_id data) items = (bad_request, items))
  ∧ (∀ data, truthy data = true → contains "name" data = Raise TypeError →
     handle (PUT_item item_id data) items = (internal_error TypeError, items))
  ∧ status bad_request = 400
  ∧ status item_not_found = 404.
Proof.
  unfold handle; cbn [dispatch]. repeat split.
  - intros data H.
    rewrite update_item_check; rewrite name_missing_falsy; done.
  - intros m H.
    rewrite update_item_check; rewrite name_missing_no_key; done.
  - intros data H.
    rewrite update_item_check; rewrite name_missing_not_in; done.
  - intros data Ht Hc.
    rewrite update_item_check; rewrite name_missing_not_iterable; done.
Qed.

Lemma update_item_body_checked_first_witness :
  handle (PUT_item 9 JNull) [new_item [] (JStr "apple")]
  = (bad_request, [new_item [] (JStr "apple")])
  ∧ handle (PUT_item 1 (JObj {[ "title" := JStr "pear" ]}))
      [new_item [] (JStr "apple")]
    = (bad_request, [new_item [] (JStr "apple")])
  ∧ handle (PUT_item 9 (JStr "pear")) [] = (bad_request, [])
  ∧ handle (PUT_item 9 (JInt 5)) [] = (internal_error TypeError, []).
Proof.
  split; [|split; [|split]].
  - exact (proj1 (update_item_body_checked_first _ 9) JNull eq_refl).
  - exact (proj1 (proj2 (update_item_body_checked_first _ 1))
             {[ "title" := JStr "pear" ]} eq_refl).
  - exact (proj1 (proj2 (proj2 (update_item_body_checked_first _ 9)))
             (JStr "pear") eq_refl).
  - exact (proj1 (proj2 (proj2 (proj2 (update_item_body_checked_first _ 9))))
             (JInt 5) eq_refl eq_refl).
Defined.

(** ** Deletion *)

Lemma filter_ids_length (items : list Item) k :
  (length (filter (λ itm, id itm ≠ k) items)
   + length (filter (λ itm, id itm = k) items) = length items)%nat.
Proof.
  induction items as [|item items IH]; [done|].
  rewrite !filter_cons.
  destruct (decide (id item ≠ k)) as [Hne|Heq];
    destruct (decide (id item = k)); cbn; try lia; tauto.
Qed.

Lemma filter_other_ids_Forall (items : list Item) k :
  Forall (λ itm, id itm ≠ k) (filter (λ itm, id itm ≠ k) items).
Proof. apply Forall_forall. by intros itm [? _]%list_elem_of_filter. Qed.

Lemma elem_filter_id_pos (items : list Item) item :
  item ∈ items →
  (1 ≤ length (filter (λ itm, id itm = id item) items))%nat.
Proof.
  intros Hin.
  assert (Hf : item ∈ filter (λ itm, id itm = id item) items)
    by (by apply list_elem_of_filter).
  destruct (filter _ items); [by apply elem_of_nil in Hf | cbn; lia].
Qed.

(** C3, as stated, fails: after POST apple, banana, cherry, DELETE
    /items/1 and POST date the store holds ids 2, 3, 3, and DELETE
    /items/3 removes two items. *)
Lemma delete_item_removes_two :
  session_store [POST_items apple; POST_items banana; POST_items cherry;
              DELETE_item 1; POST_items date]
  = [ {| id := 2; name := JStr "banana" |};
      {| id := 3; name := JStr "cherry" |};
      {| id := 3; name := JStr "date" |} ]
  ∧ handle (DELETE_item 3)
      [ {| id := 2; name := JStr "banana" |};
        {| id := 3; name := JStr "cherry" |};
        {| id := 3; name := JStr "date" |} ]
    = (item_deleted, [ {| id := 2; name := JStr "banana" |} ]).
Proof. vm_compute. split; reflexivity. Qed.

(** C3, amended. On every store, DELETE /items/{id} on an id carried by
    some item answers 200 and removes every item with that id and nothing
    else (at least one item; exactly one when the ids in the store are
    pairwise distinct), and a GET /items/{id} that follows answers 404;
    DELETE on an id carried by no item answers 404 and leaves the store
    as it was. *)
Theorem delete_item_removes_matching (items : list Item) (item_id : Z) :
  (∀ item : Item, item ∈ items → id item = item_id →
     handle (DELETE_item item_id) items
     = (item_deleted, filter (λ itm, id itm ≠ item_id) items)
     ∧ (length (filter (λ itm, id itm ≠ item_id) items)
        + length (filter (λ itm, id itm = item_id) items)
        = length items)%nat
     ∧ (1 ≤ length (filter (λ itm, id itm = item_id) items))%nat
     ∧ (NoDup (id <$> items) →
        (length (filter (λ itm, id itm ≠ item_id) items) + 1
         = length items)%nat)
     ∧ handle (GET_item item_id) (filter (λ itm, id itm ≠ item_id) items)
       = (item_not_found, filter (λ itm, id itm ≠ item_id) items))
  ∧ (Forall (λ item, id item ≠ item_id) items →
     handle (DELETE_item item_id) items = (item_not_found, items))
  ∧ item_not_found
    = {| status := 404; body := JObj {[ "error" := JStr "Item not found" ]} |}.
Proof.
  split; [|split; [|reflexivity]].
  - intros item Hin Hid.
    destruct (next_item_elem item_id items item Hin Hid) as [found Hfound].
    pose proof (filter_ids_length items item_id) as Hlen.
    pose proof (elem_filter_id_pos items item Hin) as Hpos. rewrite Hid in Hpos.
    repeat split; try done.
    + unfold handle. cbn [dispatch]. by rewrite delete_item_eq, Hfound.
    + intros Hnd. pose proof (NoDup_ids_one_match items item_id Hnd). lia.
    + unfold handle. cbn [dispatch]. rewrite get_item_eq.
      by rewrite (proj2 (next_item_None _ _) (filter_other_ids_Forall _ _)).
  - intros Hall. unfold handle. cbn [dispatch].
    by rewrite delete_item_eq, (proj2 (next_item_None _ _) Hall).
Qed.

Lemma delete_item_removes_matching_witness :
  handle (DELETE_item 1)
    [ {| id := 1; name := JStr "apple" |}; {| id := 2; name := JStr "banana" |} ]
  = (item_deleted,
     filter (λ itm, id itm ≠ 1)
       [ {| id := 1; name := JStr "apple" |};
         {| id := 2; name := JStr "banana" |} ])
  ∧ handle (DELETE_item 5) [ {| id := 1; name := JStr "apple" |} ]
    = (item_not_found, [ {| id := 1; name := JStr "apple" |} ]).
Proof.
  split.
  - refine (proj1 (proj1 (delete_item_removes_matching _ 1)
                     {| id := 1; name := JStr "apple" |} _ eq_refl)).
    apply list_elem_of_here.
  - refine (proj1 (proj2 (delete_item_removes_matching _ 5)) _).
    apply List.Forall_cons; [discriminate | apply List.Forall_nil].
Defined.

(** ** Reading back and updating *)

Lemma next_item_snoc_fresh k items item :
  Forall (λ itm, id itm ≠ k) items → id item = k →
  next_item k (items ++ [item]) = Some (length items, item).
Proof.
  intros Hall Hid. unfold next_item.
  rewrite list_find_app_r by (by apply list_find_None).
  cbn. by rewrite decide_True.
Qed.

Lemma next_item_snoc_old k items item i old :
  next_item k items = Some (i, old) →
  next_item k (items ++ [item]) = Some (i, old).
Proof. apply list_find_app_l. Qed.

Lemma ids_consecutive_fresh items :
  ids_consecutive items →
  Forall (λ item, id item ≠ Z.of_nat (length items) + 1) items.
Proof.
  intros Hinv. apply Forall_forall. intros item Hin.
  pose proof (ids_consecutive_bound _ _ Hinv Hin). lia.
Qed.

(** C4, as stated, fails: on the store reached by POST apple, banana,
    cherry and DELETE /items/1, POST date answers 201 with id 3 and name
    "date", and the GET /items/3 that follows answers 200 with the older
    item 3, whose name is "cherry". *)
Lemma get_after_post_older_item :
  session_store [POST_items apple; POST_items banana; POST_items cherry;
              DELETE_item 1]
  = [ {| id := 2; name := JStr "banana" |};
      {| id := 3; name := JStr "cherry" |} ]
  ∧ handle (POST_items date)
      [ {| id := 2; name := JStr "banana" |};
        {| id := 3; name := JStr "cherry" |} ]
    = ({| status := 201;
          body := JObj {[ "item" := JObj {[ "id" := JInt 3;
                                            "name" := JStr "date" ]} ]} |},
       [ {| id := 2; name := JStr "banana" |};
         {| id := 3; name := JStr "cherry" |};
         {| id := 3; name := JStr "date" |} ])
  ∧ fst (handle (GET_item 3)
           [ {| id := 2; name := JStr "banana" |};
             {| id := 3; name := JStr "cherry" |};
             {| id := 3; name := JStr "date" |} ])
    = {| status := 200;
         body := JObj {[ "item" := JObj {[ "id" := JInt 3;
                                           "name" := JStr "cherry" ]} ]} |}.
Proof. vm_compute. repeat split; reflexivity. Qed.

(** C4, amended. On every store, a POST /items whose body is an object
    with the key 'name' answers 201 with the new item; if no item already
    in the store carries the new id (as in every session from the empty
    store without a successful DELETE), the GET /items/{id} that follows
    answers 200 with that id and the posted name; if some item already
    carries it, the GET answers 200 with the first such item. *)
Theorem get_item_after_post
    (items : list Item) (m : gmap string json) (v : json) :
  m !! "name" = Some v →
  handle (POST_items (JObj m)) items
  = (created (new_item items v), items ++ [new_item items v])
  ∧ (Forall (λ item, id item ≠ id (new_item items v)) items →
     handle (GET_item (id (new_item items v))) (items ++ [new_item items v])
     = ({| status := 200;
           body := JObj {[ "item" :=
                     JObj {[ "id" := JInt (Z.of_nat (length items) + 1);
                             "name" := v ]} ]} |},
        items ++ [new_item items v]))
  ∧ (∀ (i : nat) (old : Item),
       next_item (id (new_item items v)) items = Some (i, old) →
       handle (GET_item (id (new_item items v))) (items ++ [new_item items v])
       = ({| status := 200; body := JObj {[ "item" := item_json old ]} |},
          items ++ [new_item items v]))
  ∧ (∀ reqs : list request,
       items = session_store reqs →
       no_successful_delete (session_events reqs) = true →
       Forall (λ item, id item ≠ id (new_item items v)) items).
Proof.
  intros Hv. split; [|split; [|split]].
  - unfold handle. cbn [dispatch]. by rewrite (add_item_obj m v Hv).
  - intros Hfresh. unfold handle. cbn [dispatch]. rewrite get_item_eq.
    by rewrite (next_item_snoc_fresh _ _ _ Hfresh eq_refl).
  - intros i old Hold. unfold handle. cbn [dispatch]. rewrite get_item_eq.
    by rewrite (next_item_snoc_old _ _ (new_item items v) _ _ Hold).
  - intros reqs -> Hno. apply ids_consecutive_fresh.
    by destruct (session_keeps_consecutive reqs Hno).
Qed.

Lemma get_item_after_post_witness :
  handle (GET_item (id (new_item [new_item [] (JStr "apple")] (JStr "banana"))))
    ([new_item [] (JStr "apple")]
     ++ [new_item [new_item [] (JStr "apple")] (JStr "banana")])
  = ({| status := 200;
        body := JObj {[ "item" := JObj {[ "id" := JInt 2;
                                          "name" := JStr "banana" ]} ]} |},
     [new_item [] (JStr "apple")]
     ++ [new_item [new_item [] (JStr "apple")] (JStr "banana")])
  ∧ handle (GET_item (id (new_item [mkItem 2 (JStr "kiwi")] (JStr "plum"))))
      ([mkItem 2 (JStr "kiwi")] ++ [new_item [mkItem 2 (JStr "kiwi")] (JStr "plum")])
    = ({| status := 200;
          body := JObj {[ "item" := item_json (mkItem 2 (JStr "kiwi")) ]} |},
       [mkItem 2 (JStr "kiwi")]
       ++ [new_item [mkItem 2 (JStr "kiwi")] (JStr "plum")])
  ∧ Forall (λ item, id item ≠ id (new_item [mkItem 1 (JStr "apple")] (JStr "pear")))
      [mkItem 1 (JStr "apple")].
Proof.
  split; [|split].
  - refine (proj1 (proj2 (get_item_after_post
                            [new_item [] (JStr "apple")]
                            {[ "name" := JStr "banana" ]} (JStr "banana")
                            eq_refl)) _).
    apply List.Forall_cons; [discriminate | apply List.Forall_nil].
  - exact (proj1 (proj2 (proj2 (get_item_after_post
                                  [mkItem 2 (JStr "kiwi")]
                                  {[ "name" := JStr "plum" ]} (JStr "plum")
                                  eq_refl)))
             0%nat (mkItem 2 (JStr "kiwi")) eq_refl).
  - exact (proj2 (proj2 (proj2 (get_item_after_post
                                  [mkItem 1 (JStr "apple")]
                                  {[ "name" := JStr "pear" ]} (JStr "pear")
                                  eq_refl)))
             [POST_items apple] eq_refl eq_refl).
Defined.

(** C6. On every store, for a PUT /items/{id} whose body is an object
    with the key 'name': if an item has that id, the first such item gets
    the supplied name and keeps its id and its position, every other
    position of the store is unchanged, and the answer is 200 with the
    updated item; if no item has that id, the answer is 404 and the store
    is unchanged. *)
Theorem update_item_replaces_first_name
    (items : list Item) (item_id : Z) (m : gmap string json) (v : json) :
  m !! "name" = Some v →
  (∀ (i : nat) (item : Item),
     items !! i = Some item → id item = item_id →
     (∀ (j : nat) (y : Item),
        items !! j = Some y → (j < i)%nat → id y ≠ item_id) →
     handle (PUT_item item_id (JObj m)) items
     = ({| status := 200;
           body := JObj {[ "item" := JObj {[ "id" := JInt item_id;
                                             "name" := v ]} ]} |},
        <[i := {| id := item_id; name := v |}]> items)
     ∧ <[i := {| id := item_id; name := v |}]> items !! i
       = Some {| id := item_id; name := v |}
     ∧ (∀ j : nat, j ≠ i →
          <[i := {| id := item_id; name := v |}]> items !! j = items !! j)
     ∧ length (<[i := {| id := item_id; name := v |}]> items) = length items
     ∧ id <$> <[i := {| id := item_id; name := v |}]> items = id <$> items)
  ∧ (Forall (λ item, id item ≠ item_id) items →
     handle (PUT_item item_id (JObj m)) items
     = ({| status := 404; body := JObj {[ "error" := JStr "Item not found" ]} |},
        items)).
Proof.
  intros Hv. split.
  - intros i item Hi Hid Hfirst.
    assert (Hfound : next_item item_id items = Some (i, item))
      by (by apply next_item_Some).
    split; [|split; [|split; [|split]]].
    + unfold handle. cbn [dispatch].
      rewrite (update_item_obj m v Hv), Hfound. cbn. by rewrite Hid.
    + apply list_lookup_insert_eq. by eapply lookup_lt_Some.
    + intros j Hj. by apply list_lookup_insert_ne.
    + apply length_insert.
    + rewrite <- Hid. by eapply update_keeps_ids.
  - intros Hall. unfold handle. cbn [dispatch].
    by rewrite (update_item_obj m v Hv), (proj2 (next_item_None _ _) Hall).
Qed.

Lemma update_item_replaces_first_name_witness :
  handle (PUT_item 2 cherry)
    [ {| id := 1; name := JStr "apple" |}; {| id := 2; name := JStr "banana" |} ]
  = ({| status := 200;
        body := JObj {[ "item" := JObj {[ "id" := JInt 2;
                                          "name" := JStr "cherry" ]} ]} |},
     <[1%nat := {| id := 2; name := JStr "cherry" |}]>
       [ {| id := 1; name := JStr "apple" |};
         {| id := 2; name := JStr "banana" |} ])
  ∧ handle (PUT_item 7 cherry) [ {| id := 1; name := JStr "apple" |} ]
    = ({| status := 404; body := JObj {[ "error" := JStr "Item not found" ]} |},
       [ {| id := 1; name := JStr "apple" |} ]).
Proof.
  split.
  - refine (proj1 (proj1 (update_item_replaces_first_name
                            [ {| id := 1; name := JStr "apple" |};
                              {| id := 2; name := JStr "banana" |} ]
                            2 {[ "name" := JStr "cherry" ]} (JStr "cherry")
                            eq_refl)
                     1%nat {| id := 2; name := JStr "banana" |}
                     eq_refl eq_refl _)).
    intros [|[|j]] y Hy Hlt; [|lia|lia].
    injection Hy as <-. discriminate.
  - refine (proj2 (update_item_replaces_first_name
                     [ {| id := 1; name := JStr "apple" |} ]
                     7 {[ "name" := JStr "cherry" ]} (JStr "cherry")
                     eq_refl) _).
    apply List.Forall_cons; [discriminate | apply List.Forall_nil].
Defined.

(** ** Listing *)

(** C8. On every store, GET /items answers 200 with all the items of the
    store in store order and leaves the store unchanged; store order is
    insertion order: a POST leaves the store as it was or adds one item at
    the end, a DELETE keeps the surviving items in their relative order,
    and a PUT keeps every id at its position. *)
Theorem get_items_insertion_order (items : list Item) :
  handle GET_items items
  = ({| status := 200; body := JObj {[ "items" := JArr (item_json <$> items) ]} |},
     items)
  ∧ (∀ data,
       snd (handle (POST_items data) items) = items
       ∨ ∃ item, snd (handle (POST_items data) items) = items ++ [item])
  ∧ (∀ item_id,
       snd (handle (DELETE_item item_id) items)
       = filter (λ itm, id itm ≠ item_id) items
       ∧ sublist (snd (handle (DELETE_item item_id) items)) items)
  ∧ (∀ item_id data,
       id <$> snd (handle (PUT_item item_id data) items) = id <$> items)
  ∧ ∀ item_id, snd (handle (GET_item item_id) items) = items.
Proof.
  unfold handle; cbn [dispatch]. split; [reflexivity|].
  split; [|split; [|split]].
  - intros data.
    destruct (add_item_outcome data items) as [v _ _| |e _]; cbn; eauto.
  - intros k. rewrite delete_item_eq.
    destruct (next_item k items) as [found|] eqn:Hn; cbn.
    + split; [done|apply sublist_filter].
    + apply next_item_None in Hn. by rewrite filter_other_ids_all.
  - intros k data.
    destruct (update_item_outcome k data items) as [i item v _ _ Hn| | |e _];
      cbn; try done.
    by eapply update_keeps_ids.
  - intros k. rewrite get_item_eq. by destruct (next_item k items) as [[? ?]|].
Qed.

(** ** Further properties of the handlers *)

(** *** The body check, case by case *)

Lemma contains_raises key data e : contains key data = Raise e → e = TypeError.
Proof. destruct data; cbn; congruence. Qed.

Lemma name_missing_true_iff data :
  name_missing data = Ok true ↔
  truthy data = false ∨ contains "name" data = Ok false.
Proof.
  rewrite name_missing_spec. destruct (truthy data) eqn:Ht.
  - destruct (contains "name" data) as [[]|e]; cbn; intuition congruence.
  - intuition congruence.
Qed.

Lemma name_missing_false_iff data :
  name_missing data = Ok false ↔
  truthy data = true ∧ contains "name" data = Ok true.
Proof.
  rewrite name_missing_spec. destruct (truthy data) eqn:Ht.
  - destruct (contains "name" data) as [[]|e]; cbn; intuition congruence.
  - intuition congruence.
Qed.

Lemma name_missing_raise_iff data e :
  name_missing data = Raise e ↔
  truthy data = true ∧ contains "name" data = Raise TypeError ∧ e = TypeError.
Proof.
  rewrite name_missing_spec. destruct (truthy data) eqn:Ht.
  - destruct (contains "name" data) as [[]|e'] eqn:Hc; cbn;
      try (intuition congruence).
    rewrite (contains_raises _ _ _ Hc). intuition congruence.
  - intuition congruence.
Qed.

Lemma has_key_contains data :
  has_key "name" data = true → contains "name" data = Ok true.
Proof. destruct data; cbn; try discriminate. by intros ->. Qed.

Lemma has_key_getitem data :
  has_key "name" data = true → ∃ v, getitem data "name" = Ok v.
Proof.
  destruct data as [| | | | | |m]; cbn; try discriminate.
  intros [v Hv]%bool_decide_eq_true. exists v. by rewrite Hv.
Qed.

Lemma has_key_truthy data : has_key "name" data = true → truthy data = true.
Proof.
  destruct data as [| | | | | |m]; cbn; try discriminate.
  intros [v Hv]%bool_decide_eq_true. by apply (truthy_obj m v).
Qed.

Lemma no_key_getitem data :
  has_key "name" data = false → contains "name" data = Ok true →
  getitem data "name" = Raise TypeError.
Proof. destruct data; cbn; try done. congruence. Qed.

(** The complete evaluation of POST /items. *)
Lemma handle_post_cases data items :
  (∃ v, has_key "name" data = true ∧ getitem data "name" = Ok v
        ∧ handle (POST_items data) items
          = (created (new_item items v), items ++ [new_item items v]))
  ∨ ((truthy data = false ∨ contains "name" data = Ok false)
     ∧ has_key "name" data = false
     ∧ handle (POST_items data) items = (bad_request, items))
  ∨ (truthy data = true ∧ has_key "name" data = false
     ∧ contains "name" data ≠ Ok false
     ∧ handle (POST_items data) items = (internal_error TypeError, items)).
Proof.
  unfold handle. cbn [dispatch]. rewrite add_item_check.
  destruct (has_key "name" data) eqn:Hk.
  - left. destruct (has_key_getitem _ Hk) as [v Hv]. exists v.
    rewrite (proj2 (name_missing_false_iff data)), Hv; [done|].
    split; [by apply has_key_truthy | by apply has_key_contains].
  - right. destruct (name_missing data) as [[]|e] eqn:Hm.
    + left. by apply name_missing_true_iff in Hm.
    + right. apply name_missing_false_iff in Hm as [Ht Hc].
      rewrite (no_key_getitem _ Hk Hc). repeat split; [done|congruence].
    + right. apply name_missing_raise_iff in Hm as (Ht & Hc & ->).
      repeat split; [done|congruence].
Qed.

(** The complete evaluation of PUT /items/{id}. *)
Lemma handle_put_eq item_id data items :
  handle (PUT_item item_id data) items =
  match name_missing data with
  | Ok true => (bad_request, items)
  | Raise e => (internal_error e, items)
  | Ok false =>
      match next_item item_id items with
      | None => (item_not_found, items)
      | Some (i, item) =>
          match getitem data "name" with
          | Ok v =>
              (jsonify {[ "item" := item_json {| id := id item; name := v |} ]},
               <[i := {| id := id item; name := v |}]> items)
          | Raise e => (internal_error e, items)
          end
      end
  end.
Proof.
  unfold handle. cbn [dispatch].
  unfold update_item, bind, eval, read_items, write_items, ret.
  destruct (name_missing data) as [[]|e]; try reflexivity.
  destruct (next_item item_id items) as [[i item]|]; [|reflexivity].
  by destruct (getitem data "name").
Qed.

Lemma handle_get_eq item_id items :
  handle (GET_item item_id) items =
  match next_item item_id items with
  | Some (_, item) => (jsonify {[ "item" := item_json item ]}, items)
  | None => (item_not_found, items)
  end.
Proof.
  unfold handle. cbn [dispatch]. rewrite get_item_eq.
  by destruct (next_item item_id items) as [[? ?]|].
Qed.

Lemma handle_delete_eq item_id items :
  handle (DELETE_item item_id) items =
  match next_item item_id items with
  | Some _ => (item_deleted, filter (λ itm, id itm ≠ item_id) items)
  | None => (item_not_found, items)
  end.
Proof.
  unfold handle. cbn [dispatch]. rewrite delete_item_eq.
  by destruct (next_item item_id items).
Qed.

Lemma next_item_Some_elem item_id items i item :
  next_item item_id items = Some (i, item) → item ∈ items ∧ id item = item_id.
Proof.
  intros (Hi & Hid & _)%next_item_Some. split; [|done].
  by eapply list_elem_of_lookup_2.
Qed.

Lemma next_item_is_Some item_id items :
  is_Some (next_item item_id items) ↔ ∃ item, item ∈ items ∧ id item = item_id.
Proof.
  split.
  - intros [[i item] H]. exists item. by eapply next_item_Some_elem.
  - intros (item & Hin & Hid). by eapply next_item_elem.
Qed.

Lemma Forall_no_elem item_id (items : list Item) :
  Forall (λ item, id item ≠ item_id) items →
  ¬ ∃ item, item ∈ items ∧ id item = item_id.
Proof.
  rewrite Forall_forall. intros Hall (item & Hin & Hid). by apply (Hall item).
Qed.

(** *** Status codes *)

(** X1. The status of POST /items is decided by the body alone, whatever
    the store: 201 exactly when the body is an object with the key 'name';
    400 exactly when the body is falsy or ['name' in data] is false; 500
    exactly in the remaining cases (truthy, not an object with the key,
    and the membership test true or raising). *)
Theorem post_status_by_body (data : json) (items : list Item) :
  (status (fst (handle (POST_items data) items)) = 201
   ↔ has_key "name" data = true)
  ∧ (status (fst (handle (POST_items data) items)) = 400
     ↔ truthy data = false ∨ contains "name" data = Ok false)
  ∧ (status (fst (handle (POST_items data) items)) = 500
     ↔ truthy data = true ∧ has_key "name" data = false
       ∧ contains "name" data ≠ Ok false).
Proof.
  destruct (handle_post_cases data items)
    as [(v & Hk & _ & ->)|[(Hm & Hk & ->)|(Ht & Hk & Hc & ->)]]; cbn.
  - pose proof (has_key_truthy _ Hk). pose proof (has_key_contains _ Hk).
    repeat split; try done; intuition congruence.
  - repeat split; try done; intuition congruence.
  - repeat split; try done; intuition congruence.
Qed.

Lemma post_status_by_body_witness :
  status (fst (handle (POST_items apple) [mkItem 1 (JStr "pear")])) = 201
  ∧ status (fst (handle (POST_items (JObj ∅)) [])) = 400
  ∧ status (fst (handle (POST_items (JBool true)) [])) = 500.
Proof.
  split; [|split].
  - exact (proj2 (proj1 (post_status_by_body apple [mkItem 1 (JStr "pear")]))
             eq_refl).
  - exact (proj2 (proj1 (proj2 (post_status_by_body (JObj ∅) [])))
             (or_introl eq_refl)).
  - refine (proj2 (proj2 (proj2 (post_status_by_body (JBool true) []))) _).
    split; [reflexivity|split; [reflexivity|discriminate]].
Defined.

(** X2. The status of PUT /items/{id}: 400 exactly when the body is falsy
    or ['name' in data] is false, whether or not the id exists; 200
    exactly when the body is an object with the key 'name' and some item
    has the id; 404 exactly when the body passes the check and no item
    has the id; 500 exactly when the check raises, or the body passes the
    check without being an object with the key and some item has the
    id. *)
Theorem put_status_by_body_and_id
    (item_id : Z) (data : json) (items : list Item) :
  (status (fst (handle (PUT_item item_id data) items)) = 400
   ↔ truthy data = false ∨ contains "name" data = Ok false)
  ∧ (status (fst (handle (PUT_item item_id data) items)) = 200
     ↔ has_key "name" data = true
       ∧ ∃ item, item ∈ items ∧ id item = item_id)
  ∧ (status (fst (handle (PUT_item item_id data) items)) = 404
     ↔ truthy data = true ∧ contains "name" data = Ok true
       ∧ Forall (λ item, id item ≠ item_id) items)
  ∧ (status (fst (handle (PUT_item item_id data) items)) = 500
     ↔ truthy data = true
       ∧ (contains "name" data = Raise TypeError
          ∨ (contains "name" data = Ok true ∧ has_key "name" data = false
             ∧ ∃ item, item ∈ items ∧ id item = item_id))).
Proof.
  rewrite handle_put_eq.
  destruct (name_missing data) as [[]|e] eqn:Hm.
  - apply name_missing_true_iff in Hm. cbn.
    assert (has_key "name" data = true → False).
    { intros Hk. pose proof (has_key_truthy _ Hk).
      pose proof (has_key_contains _ Hk). intuition congruence. }
    repeat split; try done; intuition congruence.
  - apply name_missing_false_iff in Hm as [Ht Hc].
    destruct (next_item item_id items) as [[i item]|] eqn:Hn.
    + assert (Hex : ∃ it, it ∈ items ∧ id it = item_id)
        by (apply next_item_is_Some; by eexists).
      assert (Hnall : ¬ Forall (λ it, id it ≠ item_id) items)
        by (intros Hall; by apply (Forall_no_elem _ _ Hall)).
      destruct (has_key "name" data) eqn:Hk.
      * destruct (has_key_getitem _ Hk) as [v ->]. cbn.
        repeat split; try done; intuition congruence.
      * rewrite (no_key_getitem _ Hk Hc). cbn.
        repeat split; try done; intuition congruence.
    + apply next_item_None in Hn.
      pose proof (Forall_no_elem _ _ Hn) as Hno. cbn.
      repeat split; try done; intuition congruence.
  - apply name_missing_raise_iff in Hm as (Ht & Hc & ->). cbn.
    assert (has_key "name" data = true → False).
    { intros Hk. pose proof (has_key_contains _ Hk). congruence. }
    repeat split; try done; intuition congruence.
Qed.

Lemma put_status_by_body_and_id_witness :
  status (fst (handle (PUT_item 1 cherry) [mkItem 1 (JStr "apple")])) = 200
  ∧ status (fst (handle (PUT_item 2 cherry) [mkItem 1 (JStr "apple")])) = 404
  ∧ status (fst (handle (PUT_item 2 (JInt 0)) [mkItem 1 (JStr "apple")])) = 400.
Proof.
  split; [|split].
  - refine (proj2 (proj1 (proj2 (put_status_by_body_and_id
                                   1 cherry [mkItem 1 (JStr "apple")]))) _).
    split; [reflexivity|]. exists (mkItem 1 (JStr "apple")).
    split; [apply list_elem_of_here|reflexivity].
  - refine (proj2 (proj1 (proj2 (proj2 (put_status_by_body_and_id
                                          2 cherry [mkItem 1 (JStr "apple")])))) _).
    split; [reflexivity|split; [reflexivity|]].
    apply List.Forall_cons; [discriminate | apply List.Forall_nil].
  - exact (proj2 (proj1 (put_status_by_body_and_id
                           2 (JInt 0) [mkItem 1 (JStr "apple")]))
             (or_introl eq_refl)).
Defined.

Lemma add_item_raises data items e :
  fst (add_item data items) = Raise e →
  e = TypeError ∧ truthy data = true ∧ has_key "name" data = false.
Proof.
  rewrite add_item_check.
  destruct (name_missing data) as [[]|e'] eqn:Hm; cbn; [discriminate| |].
  - apply name_missing_false_iff in Hm as [Ht Hc].
    destruct (has_key "name" data) eqn:Hk.
    + destruct (has_key_getitem _ Hk) as [v ->]. discriminate.
    + rewrite (no_key_getitem _ Hk Hc). cbn. by intros [= <-].
  - intros [= <-]. pose proof (name_check_raises _ _ Hm).
    apply name_missing_raise_iff in Hm as (Ht & _ & ->). done.
Qed.

Lemma update_item_raises item_id data items e :
  fst (update_item item_id data items) = Raise e →
  e = TypeError ∧ truthy data = true ∧ has_key "name" data = false.
Proof.
  unfold update_item, bind, eval, read_items, write_items, ret.
  destruct (name_missing data) as [[]|e'] eqn:Hm; cbn; [discriminate| |].
  - apply name_missing_false_iff in Hm as [Ht Hc].
    destruct (next_item item_id items) as [[i item]|]; [|discriminate].
    destruct (has_key "name" data) eqn:Hk.
    + destruct (has_key_getitem _ Hk) as [v ->]. discriminate.
    + rewrite (no_key_getitem _ Hk Hc). cbn. by intros [= <-].
  - intros [= <-]. pose proof (name_check_raises _ _ Hm).
    apply name_missing_raise_iff in Hm as (Ht & _ & ->). done.
Qed.

(** X3. For a request that reaches a view function with the value
    [get_json()] returned, or that matches no route, the answer has status
    200, 201, 400, 404 or 500.  Among these requests a 500 only answers a
    POST /items or a PUT /items/{id} whose parsed body is truthy and not
    an object with the key 'name' (the GET and DELETE views never cause
    one), and a 201 only answers a POST /items.  Once [get_json()] has
    returned, the code of a view raises nothing but TypeError: ['name'] is
    looked up in a dict only after the membership test, so KeyError never
    occurs. *)
Theorem status_codes_and_exceptions (r : request) (items : list Item) :
  (status (fst (handle r items)) = 200
   ∨ status (fst (handle r items)) = 201
   ∨ status (fst (handle r items)) = 400
   ∨ status (fst (handle r items)) = 404
   ∨ status (fst (handle r items)) = 500)
  ∧ (status (fst (handle r items)) = 500 →
     ∃ data, (r = POST_items data ∨ ∃ item_id, r = PUT_item item_id data)
             ∧ truthy data = true ∧ has_key "name" data = false)
  ∧ (∀ e, fst (dispatch r items) = Raise e → e = TypeError)
  ∧ (status (fst (handle r items)) = 201 → ∃ data, r = POST_items data).
Proof.
  destruct r as [| |data|k|k data|k|].
  - cbn. repeat split; try done; auto.
  - cbn. repeat split; try done; auto.
  - split; [|split; [|split]].
    + destruct (handle_post_cases data items)
        as [(v & _ & _ & ->)|[(_ & _ & ->)|(_ & _ & _ & ->)]]; cbn; auto.
    + destruct (handle_post_cases data items)
        as [(v & _ & _ & ->)|[(_ & _ & ->)|(Ht & Hk & _ & ->)]]; cbn;
        try discriminate.
      intros _. exists data. eauto.
    + intros e He. cbn [dispatch] in He. by apply add_item_raises in He as [-> _].
    + eauto.
  - rewrite handle_get_eq. cbn [dispatch]. rewrite get_item_eq.
    destruct (next_item k items) as [[? ?]|]; cbn;
      repeat split; try done; auto.
  - split; [|split; [|split]].
    + rewrite handle_put_eq.
      destruct (name_missing data) as [[]|e]; cbn; auto.
      destruct (next_item k items) as [[i item]|]; cbn; auto.
      destruct (getitem data "name"); cbn; auto.
    + unfold handle. cbn [dispatch].
      destruct (update_item k data items) as [[resp|e] s] eqn:Hu; cbn.
      * destruct (update_item_outcome k data items)
          as [i item v _ _ _| | |e' Hk]; cbn in *;
          try (injection Hu as <- <-; cbn; discriminate).
        discriminate.
      * intros _. exists data. split; [eauto|].
        assert (He : fst (update_item k data items) = Raise e)
          by (by rewrite Hu).
        by apply update_item_raises in He as (_ & ? & ?).
    + intros e He. cbn [dispatch] in He.
      by apply update_item_raises in He as [-> _].
    + rewrite handle_put_eq.
      destruct (name_missing data) as [[]|e]; cbn; try discriminate.
      destruct (next_item k items) as [[i item]|]; cbn; try discriminate.
      destruct (getitem data "name"); cbn; discriminate.
  - rewrite handle_delete_eq. cbn [dispatch]. rewrite delete_item_eq.
    destruct (next_item k items); cbn; repeat split; try done; auto.
  - cbn. repeat split; try done; auto.
Qed.

Lemma status_codes_and_exceptions_witness :
  ∃ data,
    (POST_items (JInt 5) = POST_items data
     ∨ ∃ item_id, POST_items (JInt 5) = PUT_item item_id data)
    ∧ truthy data = true ∧ has_key "name" data = false.
Proof.
  exact (proj1 (proj2 (status_codes_and_exceptions (POST_items (JInt 5)) []))
           eq_refl).
Defined.

(** X4. An answer with status 400, 404 or 500 never comes with a change
    of the store, whatever the request; GET / answers 200 with the
    welcome message and an undefined route answers 404 'Not found',
    both without touching the store. *)
Theorem error_answers_keep_store (r : request) (items : list Item) :
  (status (fst (handle r items)) = 400
   ∨ status (fst (handle r items)) = 404
   ∨ status (fst (handle r items)) = 500 →
   snd (handle r items) = items)
  ∧ handle GET_home items
    = ({| status := 200;
          body := JObj {[ "message" := JStr "Welcome to the Flask API!" ]} |},
       items)
  ∧ handle Undefined_route items
    = ({| status := 404; body := JObj {[ "error" := JStr "Not found" ]} |},
       items).
Proof.
  split; [|split; reflexivity].
  destruct r as [| |data|k|k data|k|]; try (intros _; reflexivity).
  - destruct (handle_post_cases data items)
      as [(v & _ & _ & ->)|[(_ & _ & ->)|(_ & _ & _ & ->)]]; cbn;
      intuition congruence.
  - intros _. rewrite handle_get_eq.
    by destruct (next_item k items) as [[? ?]|].
  - rewrite handle_put_eq.
    destruct (name_missing data) as [[]|e]; cbn; try done.
    destruct (next_item k items) as [[i item]|]; cbn; try done.
    destruct (getitem data "name"); cbn; [|done]. intuition congruence.
  - rewrite handle_delete_eq.
    destruct (next_item k items); cbn; [|done]. intuition congruence.
Qed.

Lemma error_answers_keep_store_witness :
  snd (handle (DELETE_item 4) [mkItem 1 (JStr "apple")])
  = [mkItem 1 (JStr "apple")].
Proof.
  exact (proj1 (error_answers_keep_store
                  (DELETE_item 4) [mkItem 1 (JStr "apple")])
           (or_intror (or_introl eq_refl))).
Defined.

(** *** Lookup *)

(** X5. GET /items/{id} never changes the store; it answers 200 exactly
    when some item of the store has the id, and then with the first such
    item in store order; it answers 404 exactly when no item has the
    id. *)
Theorem get_item_first_match (item_id : Z) (items : list Item) :
  snd (handle (GET_item item_id) items) = items
  ∧ (status (fst (handle (GET_item item_id) items)) = 200
     ↔ ∃ item, item ∈ items ∧ id item = item_id)
  ∧ (status (fst (handle (GET_item item_id) items)) = 404
     ↔ Forall (λ item, id item ≠ item_id) items)
  ∧ (∀ (i : nat) (item : Item),
       items !! i = Some item → id item = item_id →
       (∀ (j : nat) (y : Item),
          items !! j = Some y → (j < i)%nat → id y ≠ item_id) →
       fst (handle (GET_item item_id) items)
       = {| status := 200; body := JObj {[ "item" := item_json item ]} |}).
Proof.
  rewrite handle_get_eq.
  destruct (next_item item_id items) as [[i item]|] eqn:Hn.
  - assert (Hex : ∃ it, it ∈ items ∧ id it = item_id)
      by (apply next_item_is_Some; by eexists).
    split; [done|]. split; [cbn; by split|]. split.
    + cbn. split; [discriminate|].
      intros Hall. by destruct (Forall_no_elem _ _ Hall).
    + intros i' item' Hi Hid Hfirst.
      assert (Hn' : next_item item_id items = Some (i', item'))
        by (by apply next_item_Some).
      rewrite Hn in Hn'. by injection Hn' as _ <-.
  - apply next_item_None in Hn. pose proof (Forall_no_elem _ _ Hn).
    split; [done|]. split; [cbn; split; [discriminate|done]|]. split.
    + by cbn.
    + intros i item Hi Hid _. destruct H. exists item. split; [|done].
      by eapply list_elem_of_lookup_2.
Qed.

Lemma get_item_first_match_witness :
  fst (handle (GET_item 3)
         [mkItem 2 (JStr "banana"); mkItem 3 (JStr "cherry");
          mkItem 3 (JStr "date")])
  = {| status := 200;
       body := JObj {[ "item" := item_json (mkItem 3 (JStr "cherry")) ]} |}.
Proof.
  refine (proj2 (proj2 (proj2 (get_item_first_match 3
            [mkItem 2 (JStr "banana"); mkItem 3 (JStr "cherry");
             mkItem 3 (JStr "date")])))
            1%nat (mkItem 3 (JStr "cherry")) eq_refl eq_refl _).
  intros [|j] y Hy Hlt; [|lia]. injection Hy as <-. discriminate.
Defined.

(** *** Deleting and updating twice *)

(** X6. DELETE is idempotent on the store: whatever the first DELETE
    /items/{id} answered, a second one answers 404 and leaves the store as
    the first one left it. *)
Theorem delete_item_twice (item_id : Z) (items : list Item) :
  handle (DELETE_item item_id) (snd (handle (DELETE_item item_id) items))
  = ({| status := 404; body := JObj {[ "error" := JStr "Item not found" ]} |},
     snd (handle (DELETE_item item_id) items)).
Proof.
  rewrite (handle_delete_eq item_id items).
  destruct (next_item item_id items) eqn:Hn; cbn [snd].
  - rewrite handle_delete_eq.
    by rewrite (proj2 (next_item_None _ _) (filter_other_ids_Forall _ _)).
  - by rewrite handle_delete_eq, Hn.
Qed.

Lemma next_item_insert_same k items i item item' :
  next_item k items = Some (i, item) → id item' = k →
  next_item k (<[i := item']> items) = Some (i, item').
Proof.
  intros (Hi & Hid & Hfirst)%next_item_Some Hid'.
  apply next_item_Some. split; [|split; [done|]].
  - apply list_lookup_insert_eq. by eapply lookup_lt_Some.
  - intros j y Hj Hlt. rewrite list_lookup_insert_ne in Hj by lia. eauto.
Qed.

Lemma next_item_insert_other k k' items i item item' :
  items !! i = Some item → id item = k → id item' = k → k' ≠ k →
  next_item k' (<[i := item']> items) = next_item k' items.
Proof.
  intros Hi Hid Hid' Hne. apply option_eq. intros [j y].
  assert (Hi' : <[i := item']> items !! i = Some item')
    by (apply list_lookup_insert_eq; by eapply lookup_lt_Some).
  rewrite !next_item_Some. split.
  - intros (Hj & Hy & Hfirst).
    assert (j ≠ i) by (intros ->; congruence).
    rewrite list_lookup_insert_ne in Hj by done.
    split; [done|]. split; [done|]. intros j' y' Hj' Hlt.
    destruct (decide (j' = i)) as [->|Hji]; [congruence|].
    apply (Hfirst j'); [|done]. by rewrite list_lookup_insert_ne.
  - intros (Hj & Hy & Hfirst).
    assert (j ≠ i) by (intros ->; congruence).
    split; [by rewrite list_lookup_insert_ne|]. split; [done|].
    intros j' y' Hj' Hlt.
    destruct (decide (j' = i)) as [->|Hji]; [congruence|].
    rewrite list_lookup_insert_ne in Hj' by done. eauto.
Qed.

Lemma next_item_cons k x xs :
  next_item k (x :: xs)
  = if decide (id x = k) then Some (0%nat, x)
    else prod_map S (λ y, y) <$> next_item k xs.
Proof. reflexivity. Qed.

Lemma snd_next_item_cons k x xs :
  snd <$> next_item k (x :: xs)
  = if decide (id x = k) then Some x else snd <$> next_item k xs.
Proof.
  rewrite next_item_cons. destruct (decide (id x = k)); [done|].
  by destruct (next_item k xs) as [[? ?]|].
Qed.

Lemma next_item_filter_other k k' items :
  k' ≠ k →
  snd <$> next_item k' (filter (λ itm, id itm ≠ k) items)
  = snd <$> next_item k' items.
Proof.
  intros Hne. induction items as [|x xs IH]; [done|].
  rewrite filter_cons, (snd_next_item_cons k' x xs).
  destruct (decide (id x ≠ k)) as [Hk|Hk].
  - rewrite snd_next_item_cons. by destruct (decide (id x = k')).
  - destruct (decide (id x = k')); [|done].
    destruct Hk. congruence.
Qed.

Lemma next_item_snoc_none k items item :
  next_item k items = None → id item ≠ k →
  next_item k (items ++ [item]) = None.
Proof.
  intros Hn Hid. apply next_item_None, Forall_app. split.
  - by apply next_item_None.
  - by apply Forall_singleton.
Qed.

(** The answer of GET /items/{id} is a function of the first match. *)
Lemma handle_get_by_match k s1 s2 :
  snd <$> next_item k s1 = snd <$> next_item k s2 →
  fst (handle (GET_item k) s1) = fst (handle (GET_item k) s2).
Proof.
  intros H. rewrite !handle_get_eq.
  destruct (next_item k s1) as [[? ?]|], (next_item k s2) as [[? ?]|];
    cbn in *; congruence.
Qed.

(** X7. PUT then GET, even when several items carry the id: after a PUT
    /items/{id} whose body is an object with the key 'name', on an id that
    some item has, GET /items/{id} answers 200 with that id and the name
    just written. *)
Theorem put_then_get
    (item_id : Z) (items : list Item) (m : gmap string json) (v : json) :
  m !! "name" = Some v →
  (∃ item, item ∈ items ∧ id item = item_id) →
  fst (handle (GET_item item_id)
         (snd (handle (PUT_item item_id (JObj m)) items)))
  = {| status := 200;
       body := JObj {[ "item" := JObj {[ "id" := JInt item_id;
                                         "name" := v ]} ]} |}.
Proof.
  intros Hv [[i item] Hn]%next_item_is_Some.
  rewrite handle_put_eq, (name_missing_obj m v Hv), Hn, (getitem_obj m v Hv).
  cbn [snd]. rewrite handle_get_eq.
  apply next_item_Some in Hn as Hn'. destruct Hn' as (_ & Hid & _).
  rewrite (next_item_insert_same _ _ _ _ {| id := id item; name := v |}
             Hn Hid).
  cbn. by rewrite Hid.
Qed.

Lemma put_then_get_witness :
  fst (handle (GET_item 3)
         (snd (handle (PUT_item 3 apple)
                 [mkItem 3 (JStr "cherry"); mkItem 3 (JStr "date")])))
  = {| status := 200;
       body := JObj {[ "item" := JObj {[ "id" := JInt 3;
                                         "name" := JStr "apple" ]} ]} |}.
Proof.
  refine (put_then_get 3 [mkItem 3 (JStr "cherry"); mkItem 3 (JStr "date")]
            {[ "name" := JStr "apple" ]} (JStr "apple") eq_refl _).
  exists (mkItem 3 (JStr "cherry")). split; [apply list_elem_of_here|reflexivity].
Defined.

(** X8. PUT is idempotent for every body and every id: repeating the same
    PUT /items/{id} gives the same answer and leaves the store as the
    first one left it. *)
Theorem update_item_twice (item_id : Z) (data : json) (items : list Item) :
  handle (PUT_item item_id data) (snd (handle (PUT_item item_id data) items))
  = handle (PUT_item item_id data) items.
Proof.
  rewrite (handle_put_eq item_id data items).
  destruct (name_missing data) as [[]|e] eqn:Hm; cbn [snd].
  - by rewrite handle_put_eq, Hm.
  - destruct (next_item item_id items) as [[i item]|] eqn:Hn; cbn [snd].
    + destruct (getitem data "name") as [v|e] eqn:Hg; cbn [snd].
      * rewrite handle_put_eq, Hm.
        rewrite (next_item_insert_same _ _ _ _ {| id := id item; name := v |} Hn)
          by (by apply next_item_Some in Hn as (_ & ? & _)).
        rewrite Hg. cbn [id]. by rewrite list_insert_insert_eq.
      * by rewrite handle_put_eq, Hm, Hn, Hg.
    + by rewrite handle_put_eq, Hm, Hn.
  - by rewrite handle_put_eq, Hm.
Qed.

(** X9. Requests on one id do not disturb the lookup of another: for an
    id different from the one addressed, GET answers the same before and
    after a PUT or a DELETE, whatever these answered; and a POST never
    changes the answer of GET for an id that an item already has, nor for
    any id other than the one it assigns. *)
Theorem get_item_frame (item_id other : Z) (items : list Item) :
  (other ≠ item_id →
   ∀ data,
     fst (handle (GET_item other) (snd (handle (PUT_item item_id data) items)))
     = fst (handle (GET_item other) items))
  ∧ (other ≠ item_id →
     fst (handle (GET_item other) (snd (handle (DELETE_item item_id) items)))
     = fst (handle (GET_item other) items))
  ∧ ((∃ item, item ∈ items ∧ id item = other)
     ∨ other ≠ Z.of_nat (length items) + 1 →
     ∀ data,
       fst (handle (GET_item other) (snd (handle (POST_items data) items)))
       = fst (handle (GET_item other) items)).
Proof.
  split; [|split].
  - intros Hne data. apply handle_get_by_match. rewrite handle_put_eq.
    destruct (name_missing data) as [[]|e]; cbn [snd]; try done.
    destruct (next_item item_id items) as [[i item]|] eqn:Hn; cbn [snd];
      [|done].
    destruct (getitem data "name") as [v|e]; cbn [snd]; [|done].
    apply next_item_Some in Hn as (Hi & Hid & _).
    by rewrite (next_item_insert_other item_id other items i item).
  - intros Hne. apply handle_get_by_match. rewrite handle_delete_eq.
    destruct (next_item item_id items); cbn [snd]; [|done].
    by apply next_item_filter_other.
  - intros Hcase data. apply handle_get_by_match.
    destruct (handle_post_cases data items)
      as [(v & _ & _ & ->)|[(_ & _ & ->)|(_ & _ & _ & ->)]]; cbn [snd];
      try done.
    destruct (next_item other items) as [[i old]|] eqn:Hn.
    + by rewrite (next_item_snoc_old _ _ (new_item items v) _ _ Hn).
    + destruct Hcase as [Hex|Hne].
      * apply next_item_is_Some in Hex as [? Hex]. congruence.
      * by rewrite next_item_snoc_none.
Qed.

Lemma get_item_frame_witness :
  fst (handle (GET_item 2)
         (snd (handle (DELETE_item 1)
                 [mkItem 1 (JStr "apple"); mkItem 2 (JStr "banana")])))
  = fst (handle (GET_item 2)
           [mkItem 1 (JStr "apple"); mkItem 2 (JStr "banana")])
  ∧ fst (handle (GET_item 2)
           (snd (handle (PUT_item 1 cherry)
                   [mkItem 1 (JStr "apple"); mkItem 2 (JStr "banana")])))
    = fst (handle (GET_item 2)
             [mkItem 1 (JStr "apple"); mkItem 2 (JStr "banana")])
  ∧ fst (handle (GET_item 7)
           (snd (handle (POST_items cherry) [mkItem 1 (JStr "apple")])))
    = fst (handle (GET_item 7) [mkItem 1 (JStr "apple")]).
Proof.
  split; [|split].
  - refine (proj1 (proj2 (get_item_frame 1 2 _)) _). discriminate.
  - refine (proj1 (get_item_frame 1 2 _) _ cherry). discriminate.
  - refine (proj2 (proj2 (get_item_frame 0 7 [mkItem 1 (JStr "apple")]))
              _ cherry).
    right. discriminate.
Defined.

(** *** Sessions with deletions *)

Lemma handle_keeps_bounds r items (n : nat) :
  (length items ≤ n)%nat →
  Forall (λ item, 1 ≤ id item ≤ Z.of_nat n) items →
  (length (snd (handle r items))
   ≤ n + if successful_post (r, fst (handle r items)) then 1 else 0)%nat
  ∧ Forall (λ item,
       1 ≤ id item
       ≤ Z.of_nat (n + if successful_post (r, fst (handle r items))
                       then 1 else 0))
      (snd (handle r items)).
Proof.
  intros Hlen Hall.
  assert (Hweak : ∀ k : nat, Forall (λ item, 1 ≤ id item ≤ Z.of_nat (n + k)) items).
  { intros k. eapply Forall_impl; [exact Hall|]. cbn. intros; lia. }
  destruct r as [| |data|k|k data|k|].
  - cbn. split; [lia|apply Hweak].
  - cbn. split; [lia|apply Hweak].
  - destruct (handle_post_cases data items)
      as [(v & _ & _ & ->)|[(_ & _ & ->)|(_ & _ & _ & ->)]]; cbn.
    + rewrite length_app. cbn. split; [lia|].
      apply Forall_app. split; [apply Hweak|].
      apply Forall_singleton. cbn. lia.
    + split; [lia|apply Hweak].
    + split; [lia|apply Hweak].
  - rewrite handle_get_eq. destruct (next_item k items) as [[? ?]|]; cbn;
      (split; [lia|apply Hweak]).
  - rewrite handle_put_eq. cbn [successful_post].
    destruct (name_missing data) as [[]|e]; cbn [snd];
      try (split; [lia|apply Hweak]).
    destruct (next_item k items) as [[i item]|] eqn:Hn; cbn [snd];
      try (split; [lia|apply Hweak]).
    destruct (getitem data "name") as [v|e]; cbn [snd];
      try (split; [lia|apply Hweak]).
    rewrite length_insert. split; [lia|].
    apply Forall_insert; [apply Hweak|]. cbn [id].
    apply next_item_Some_elem in Hn as [Hin _].
    pose proof (Hweak 0%nat) as Hw. rewrite Forall_forall in Hw.
    by apply Hw.
  - rewrite handle_delete_eq. cbn [successful_post].
    destruct (next_item k items); cbn [snd]; [|split; [lia|apply Hweak]].
    split.
    + pose proof (length_filter (λ itm, id itm ≠ k) items). lia.
    + apply Forall_forall. intros item [_ Hin]%list_elem_of_filter.
      pose proof (Hweak 0%nat) as Hw. rewrite Forall_forall in Hw.
      by apply Hw.
  - cbn. split; [lia|apply Hweak].
Qed.

Lemma serve_keeps_bounds reqs : ∀ items (n : nat),
  (length items ≤ n)%nat →
  Forall (λ item, 1 ≤ id item ≤ Z.of_nat n) items →
  (length (snd (serve reqs items))
   ≤ n + created_count (fst (serve reqs items)))%nat
  ∧ Forall (λ item,
       1 ≤ id item ≤ Z.of_nat (n + created_count (fst (serve reqs items))))
      (snd (serve reqs items)).
Proof.
  induction reqs as [|r rest IH]; intros items n Hlen Hall.
  - cbn. unfold created_count. cbn. rewrite Nat.add_0_r. by split.
  - rewrite serve_cons. cbn [fst snd].
    destruct (handle_keeps_bounds r items n Hlen Hall) as [Hlen' Hall'].
    destruct (IH _ _ Hlen' Hall') as [Hl Ha].
    unfold created_count in *. cbn [List.filter].
    destruct (successful_post (r, fst (handle r items))); cbn [length].
    + replace (n + S (length (List.filter successful_post
                                (fst (serve rest (snd (handle r items)))))))%nat
        with (n + 1 + length (List.filter successful_post
                                (fst (serve rest (snd (handle r items))))))%nat
        by lia.
      by split.
    + rewrite Nat.add_0_r in Hl, Ha. by split.
Qed.

(** X10. In every session from the empty store, deletions included, the
    store never holds more items than were created, and every id in the
    store lies between 1 and the number of items created so far. *)
Theorem session_ids_bounded (reqs : list request) :
  (length (session_store reqs) ≤ created_count (session_events reqs))%nat
  ∧ Forall (λ item,
       1 ≤ id item ≤ Z.of_nat (created_count (session_events reqs)))
      (session_store reqs).
Proof.
  unfold session_store, session_events.
  assert (H0 : (length initial_items ≤ 0)%nat) by (cbn; lia).
  destruct (serve_keeps_bounds reqs initial_items 0 H0 (Forall_nil_2 _))
    as [Hl Ha].
  by split.
Qed.

(** *** Creating and deleting *)

Lemma filter_other_ids_snoc (items : list Item) item :
  filter (λ itm, id itm ≠ id item) (items ++ [item])
  = filter (λ itm, id itm ≠ id item) items.
Proof.
  rewrite filter_app, (filter_cons_False _ item []) by (intros H; by apply H).
  by rewrite filter_nil, app_nil_r.
Qed.

(** X11. POST then DELETE of the id just assigned: the DELETE answers 200
    and removes the new item together with every older item carrying the
    same id; when the new id was not in the store before, the store is
    back to what it was before the POST. *)
Theorem post_then_delete
    (items : list Item) (m : gmap string json) (v : json) :
  m !! "name" = Some v →
  handle (DELETE_item (Z.of_nat (length items) + 1))
    (snd (handle (POST_items (JObj m)) items))
  = (item_deleted,
     filter (λ itm, id itm ≠ Z.of_nat (length items) + 1) items)
  ∧ (Forall (λ item, id item ≠ Z.of_nat (length items) + 1) items →
     handle (DELETE_item (Z.of_nat (length items) + 1))
       (snd (handle (POST_items (JObj m)) items))
     = (item_deleted, items)).
Proof.
  intros Hv.
  assert (Hpost : snd (handle (POST_items (JObj m)) items)
                  = items ++ [new_item items v]).
  { unfold handle. cbn [dispatch]. by rewrite (add_item_obj m v Hv). }
  assert (Hdel : handle (DELETE_item (Z.of_nat (length items) + 1))
                   (snd (handle (POST_items (JObj m)) items))
                 = (item_deleted,
                    filter (λ itm, id itm ≠ Z.of_nat (length items) + 1) items)).
  { rewrite Hpost, handle_delete_eq.
    destruct (next_item_elem (Z.of_nat (length items) + 1)
                (items ++ [new_item items v]) (new_item items v))
      as [found ->]; [|done|].
    - apply elem_of_app. right. apply list_elem_of_here.
    - f_equal. apply (filter_other_ids_snoc items (new_item items v)). }
  split; [exact Hdel|].
  intros Hfresh. by rewrite Hdel, filter_other_ids_all.
Qed.

Lemma post_then_delete_witness :
  handle (DELETE_item (Z.of_nat (length [mkItem 1 (JStr "apple")]) + 1))
    (snd (handle (POST_items banana) [mkItem 1 (JStr "apple")]))
  = (item_deleted, [mkItem 1 (JStr "apple")]).
Proof.
  refine (proj2 (post_then_delete [mkItem 1 (JStr "apple")]
                   {[ "name" := JStr "banana" ]} (JStr "banana") eq_refl) _).
  apply List.Forall_cons; [discriminate | apply List.Forall_nil].
Defined.

Lemma filter_id_filter_other (items : list Item) (n k : Z) :
  n ≠ k →
  filter (λ itm, id itm = n) (filter (λ itm, id itm ≠ k) items)
  = filter (λ itm, id itm = n) items.
Proof.
  intros Hne. induction items as [|x xs IH]; [done|].
  rewrite (filter_cons (λ itm, id itm ≠ k)).
  destruct (decide (id x ≠ k)) as [Hk|Hk].
  - rewrite !filter_cons. destruct (decide (id x = n)); by rewrite IH.
  - rewrite IH, filter_cons_False; [done|]. intros Hn. apply Hk. congruence.
Qed.

Lemma ids_consecutive_has items (k : Z) :
  ids_consecutive items → 1 ≤ k ≤ Z.of_nat (length items) →
  ∃ item, item ∈ items ∧ id item = k.
Proof.
  intros Hinv Hk.
  destruct (lookup_lt_is_Some_2 items (Z.to_nat (k - 1))) as [item Hi]; [lia|].
  exists item. split; [by eapply list_elem_of_lookup_2|].
  rewrite (ids_consecutive_lookup _ _ _ Hinv Hi). lia.
Qed.

Lemma ids_consecutive_one_match items (k : Z) :
  ids_consecutive items → 1 ≤ k ≤ Z.of_nat (length items) →
  length (filter (λ itm, id itm = k) items) = 1%nat.
Proof.
  intros Hinv Hk.
  destruct (ids_consecutive_has _ _ Hinv Hk) as (item & Hin & <-).
  pose proof (elem_filter_id_pos items item Hin).
  pose proof (NoDup_ids_one_match items (id item)
                (sorted_lt_NoDup _ (ids_consecutive_sorted _ Hinv))).
  lia.
Qed.

(** X12. How ids come to repeat: on a store whose ids are 1, ..., n in
    order, DELETE of any id but the last followed by a POST gives the new
    item the id n, which the last item still carries; the store then
    holds exactly two items with id n and its ids are no longer
    distinct. *)
Theorem delete_then_post_repeats_id
    (items : list Item) (item_id : Z) (m : gmap string json) (v : json) :
  ids_consecutive items →
  1 ≤ item_id < Z.of_nat (length items) →
  m !! "name" = Some v →
  fst (handle (POST_items (JObj m))
         (snd (handle (DELETE_item item_id) items)))
  = created {| id := Z.of_nat (length items); name := v |}
  ∧ length (filter (λ itm, id itm = Z.of_nat (length items))
              (snd (handle (POST_items (JObj m))
                      (snd (handle (DELETE_item item_id) items)))))
    = 2%nat
  ∧ ¬ NoDup (id <$> snd (handle (POST_items (JObj m))
                           (snd (handle (DELETE_item item_id) items)))).
Proof.
  intros Hinv Hk Hv.
  destruct (ids_consecutive_has items item_id Hinv) as (item & Hin & Hid);
    [lia|].
  destruct (next_item_elem item_id items item Hin Hid) as [found Hfound].
  assert (Hdel : snd (handle (DELETE_item item_id) items)
                 = filter (λ itm, id itm ≠ item_id) items)
    by (by rewrite handle_delete_eq, Hfound).
  assert (Hlen : (length (filter (λ itm, id itm ≠ item_id) items) + 1
                  = length items)%nat).
  { pose proof (filter_ids_length items item_id).
    rewrite (ids_consecutive_one_match items item_id Hinv) in H by lia. lia. }
  assert (Hnew : new_item (filter (λ itm, id itm ≠ item_id) items) v
                 = {| id := Z.of_nat (length items); name := v |}).
  { unfold new_item. f_equal. lia. }
  assert (Hpost : handle (POST_items (JObj m))
                    (snd (handle (DELETE_item item_id) items))
                  = (created {| id := Z.of_nat (length items); name := v |},
                     filter (λ itm, id itm ≠ item_id) items
                     ++ [ {| id := Z.of_nat (length items); name := v |} ])).
  { rewrite Hdel. unfold handle. cbn [dispatch].
    by rewrite (add_item_obj m v Hv), <- Hnew. }
  assert (Htwo : length (filter (λ itm, id itm = Z.of_nat (length items))
                           (filter (λ itm, id itm ≠ item_id) items
                            ++ [ {| id := Z.of_nat (length items);
                                    name := v |} ]))
                 = 2%nat).
  { rewrite filter_app, length_app, filter_id_filter_other by lia.
    rewrite (ids_consecutive_one_match items _ Hinv) by lia.
    by rewrite filter_cons_True. }
  rewrite Hpost. cbn [fst snd]. split; [done|]. split; [done|].
  intros Hnd.
  pose proof (NoDup_ids_one_match _ (Z.of_nat (length items)) Hnd). lia.
Qed.

Lemma delete_then_post_repeats_id_witness :
  fst (handle (POST_items cherry)
         (snd (handle (DELETE_item 1)
                 [mkItem 1 (JStr "apple"); mkItem 2 (JStr "banana")])))
  = created {| id := 2; name := JStr "cherry" |}.
Proof.
  refine (proj1 (delete_then_post_repeats_id
                   [mkItem 1 (JStr "apple"); mkItem 2 (JStr "banana")] 1
                   {[ "name" := JStr "cherry" ]} (JStr "cherry")
                   eq_refl _ eq_refl)).
  cbn. lia.
Defined.

(** *** Bodies that are not objects *)

Lemma contains_true_truthy data :
  contains "name" data = Ok true → truthy data = true.
Proof.
  destruct data as [|b|z|f|s|l|m]; cbn; try discriminate.
  - destruct s; [discriminate|done].
  - destruct l; [discriminate|done].
  - intros [= [v Hv]%bool_decide_eq_true]. by apply (truthy_obj m v).
Qed.

(** X13. A body that passes the membership test without being an object
    (an array with the element 'name', a string containing 'name') is not
    rejected with 400: POST /items fails on [data['name']] and answers
    500; PUT /items/{id} answers 404 when no item has the id and 500 when
    one has; the store is unchanged in each case. *)
Theorem name_in_non_object_body
    (item_id : Z) (data : json) (items : list Item) :
  has_key "name" data = false →
  contains "name" data = Ok true →
  handle (POST_items data) items
  = ({| status := 500;
        body := JObj {[ "error" := JStr "Internal server error" ]} |}, items)
  ∧ (Forall (λ item, id item ≠ item_id) items →
     handle (PUT_item item_id data) items
     = ({| status := 404; body := JObj {[ "error" := JStr "Item not found" ]} |},
        items))
  ∧ ((∃ item, item ∈ items ∧ id item = item_id) →
     handle (PUT_item item_id data) items
     = ({| status := 500;
           body := JObj {[ "error" := JStr "Internal server error" ]} |},
        items)).
Proof.
  intros Hk Hc.
  assert (Hm : name_missing data = Ok false).
  { apply name_missing_false_iff. split; [by apply contains_true_truthy|done]. }
  assert (Hg := no_key_getitem _ Hk Hc).
  split; [|split].
  - unfold handle. cbn [dispatch]. by rewrite add_item_check, Hm, Hg.
  - intros Hall.
    by rewrite handle_put_eq, Hm, (proj2 (next_item_None _ _) Hall).
  - intros [[i item] Hn]%next_item_is_Some.
    by rewrite handle_put_eq, Hm, Hn, Hg.
Qed.

Lemma name_in_non_object_body_witness :
  handle (POST_items (JArr [JInt 1; JStr "name"])) [mkItem 1 (JStr "apple")]
  = ({| status := 500;
        body := JObj {[ "error" := JStr "Internal server error" ]} |},
     [mkItem 1 (JStr "apple")])
  ∧ handle (PUT_item 2 (JStr "my name")) [mkItem 1 (JStr "apple")]
    = ({| status := 404; body := JObj {[ "error" := JStr "Item not found" ]} |},
       [mkItem 1 (JStr "apple")])
  ∧ handle (PUT_item 1 (JStr "my name")) [mkItem 1 (JStr "apple")]
    = ({| status := 500;
          body := JObj {[ "error" := JStr "Internal server error" ]} |},
       [mkItem 1 (JStr "apple")]).
Proof.
  split; [|split].
  - exact (proj1 (name_in_non_object_body 0 (JArr [JInt 1; JStr "name"])
                    [mkItem 1 (JStr "apple")] eq_refl eq_refl)).
  - refine (proj1 (proj2 (name_in_non_object_body 2 (JStr "my name")
                            [mkItem 1 (JStr "apple")] eq_refl eq_refl)) _).
    apply List.Forall_cons; [discriminate | apply List.Forall_nil].
  - refine (proj2 (proj2 (name_in_non_object_body 1 (JStr "my name")
                            [mkItem 1 (JStr "apple")] eq_refl eq_refl)) _).
    exists (mkItem 1 (JStr "apple")).
    split; [apply list_elem_of_here|reflexivity].
Defined.

(** *** Listing *)

Lemma item_json_inj a b : item_json a = item_json b → a = b.
Proof.
  destruct a as [ia na], b as [ib nb]. unfold item_json. cbn [id name].
  intros H.
  assert (Hm : ({[ "id" := JInt ia; "name" := na ]} : gmap string json)
               = {[ "id" := JInt ib; "name" := nb ]}) by congruence.
  clear H.
  pose proof (f_equal (λ d : gmap string json, d !! "id") Hm) as Hid.
  pose proof (f_equal (λ d : gmap string json, d !! "name") Hm) as Hnm.
  cbv beta in Hid, Hnm.
  rewrite !lookup_insert_eq in Hid.
  rewrite !lookup_insert_ne, !lookup_singleton_eq in Hnm by done.
  congruence.
Qed.

Lemma item_json_list_inj (s1 s2 : list Item) :
  item_json <$> s1 = item_json <$> s2 → s1 = s2.
Proof.
  revert s2. induction s1 as [|a s1 IH]; intros [|b s2]; try done.
  rewrite !fmap_cons. intros H.
  pose proof (f_equal (λ l, List.hd JNull l) H) as Ha.
  pose proof (f_equal (λ l, List.tl l) H) as Hs.
  cbv beta in Ha, Hs. cbn [List.hd List.tl] in Ha, Hs.
  f_equal; [by apply item_json_inj | by apply IH].
Qed.

(** X14. GET /items shows the whole state: two stores for which it gives
    the same answer are equal, item by item and in the same order. *)
Theorem get_items_determines_store (s1 s2 : list Item) :
  fst (handle GET_items s1) = fst (handle GET_items s2) → s1 = s2.
Proof.
  unfold handle, dispatch, get_items, bind, read_items, ret, jsonify.
  cbn [fst]. intros H. apply item_json_list_inj.
  assert (Hm : ({[ "items" := JArr (item_json <$> s1) ]} : gmap string json)
               = {[ "items" := JArr (item_json <$> s2) ]}) by congruence.
  pose proof (f_equal (λ d : gmap string json, d !! "items") Hm) as Hl.
  cbv beta in Hl. rewrite !lookup_singleton_eq in Hl. congruence.
Qed.

Lemma get_items_determines_store_witness :
  snd (handle (POST_items apple) []) = [mkItem 1 (JStr "apple")].
Proof.
  exact (get_items_determines_store
           (snd (handle (POST_items apple) [])) [mkItem 1 (JStr "apple")]
           eq_refl).
Defined.

(** X15. POST then GET /items: after a POST /items whose body is an object
    with the key 'name', the listing is the former listing followed by
    the new item, whose name is the posted value unchanged, of whatever
    JSON type it is. *)
Theorem post_then_list
    (items : list Item) (m : gmap string json) (v : json) :
  m !! "name" = Some v →
  fst (handle GET_items (snd (handle (POST_items (JObj m)) items)))
  = {| status := 200;
       body := JObj {[ "items" :=
                 JArr ((item_json <$> items)
                       ++ [ JObj {[ "id" := JInt (Z.of_nat (length items) + 1);
                                    "name" := v ]} ]) ]} |}.
Proof.
  intros Hv. unfold handle at 2. cbn [dispatch].
  rewrite (add_item_obj m v Hv). cbn. by rewrite fmap_app.
Qed.

Lemma post_then_list_witness :
  fst (handle GET_items
         (snd (handle (POST_items (JObj {[ "name" := JNull ]}))
                 [mkItem 1 (JStr "apple")])))
  = {| status := 200;
       body := JObj {[ "items" :=
                 JArr ((item_json <$> [mkItem 1 (JStr "apple")])
                       ++ [ JObj {[ "id" := JInt 2; "name" := JNull ]} ]) ]} |}.
Proof.
  exact (post_then_list [mkItem 1 (JStr "apple")]
           {[ "name" := JNull ]} JNull eq_refl).
Defined.

(** X16. In a session from the empty store in which no DELETE succeeded,
    GET /items/{id} answers 200 exactly for the ids from 1 to the number
    of items created, and 404 for every other id. *)
Theorem no_delete_get_range (reqs : list request) (item_id : Z) :
  no_successful_delete (session_events reqs) = true →
  (status (fst (handle (GET_item item_id) (session_store reqs))) = 200
   ↔ 1 ≤ item_id ≤ Z.of_nat (created_count (session_events reqs)))
  ∧ (status (fst (handle (GET_item item_id) (session_store reqs))) = 404
     ↔ ¬ 1 ≤ item_id ≤ Z.of_nat (created_count (session_events reqs))).
Proof.
  intros Hno. destruct (session_keeps_consecutive reqs Hno) as [Hinv Hlen].
  rewrite <- Hlen, handle_get_eq.
  destruct (next_item item_id (session_store reqs)) as [[i item]|] eqn:Hn.
  - apply next_item_Some_elem in Hn as [Hin <-].
    pose proof (ids_consecutive_bound _ _ Hinv Hin). cbn [fst status jsonify].
    split; (split; [done|]); [done|]. intros Hout. by destruct Hout.
  - assert (Hout : ¬ 1 ≤ item_id ≤ Z.of_nat (length (session_store reqs))).
    { intros Hk. destruct (ids_consecutive_has _ _ Hinv Hk) as (it & Hin & Hid).
      destruct (next_item_elem item_id _ it Hin Hid) as [? ?]. congruence. }
    split; (split; [|done]); cbn; [discriminate|done].
Qed.

Lemma no_delete_get_range_witness :
  status (fst (handle (GET_item 2)
                 (session_store [POST_items apple; POST_items banana]))) = 200.
Proof.
  refine (proj2 (proj1 (no_delete_get_range
                          [POST_items apple; POST_items banana] 2 eq_refl)) _).
  vm_compute. split; discriminate.
Defined.

(** *** Size of the store *)

(** X17. One request changes the length of the store by at most one item
    upwards: the store is one item longer exactly when the answer is 201,
    and it is shorter only after a DELETE answered 200; every other
    request leaves the length as it was. *)
Theorem store_length_step (r : request) (items : list Item) :
  (length (snd (handle r items)) ≤ length items + 1)%nat
  ∧ (length (snd (handle r items)) = (length items + 1)%nat
     ↔ status (fst (handle r items)) = 201)
  ∧ ((length (snd (handle r items)) < length items)%nat →
     ∃ item_id, r = DELETE_item item_id
                ∧ status (fst (handle r items)) = 200).
Proof.
  destruct r as [| |data|k|k data|k|].
  - cbn. repeat split; try lia; discriminate.
  - cbn. repeat split; try lia; discriminate.
  - destruct (handle_post_cases data items)
      as [(v & _ & _ & ->)|[(_ & _ & ->)|(_ & _ & _ & ->)]]; cbn;
      rewrite ?length_app; cbn; repeat split; try lia; discriminate.
  - rewrite handle_get_eq. destruct (next_item k items) as [[? ?]|]; cbn;
      repeat split; try lia; discriminate.
  - rewrite handle_put_eq.
    destruct (name_missing data) as [[]|e]; cbn;
      try (repeat split; try lia; discriminate).
    destruct (next_item k items) as [[i item]|]; cbn;
      try (repeat split; try lia; discriminate).
    destruct (getitem data "name"); cbn; rewrite ?length_insert;
      repeat split; try lia; discriminate.
  - rewrite handle_delete_eq. destruct (next_item k items); cbn.
    + pose proof (length_filter (λ itm, id itm ≠ k) items).
      repeat split; try lia; try discriminate. intros _. by exists k.
    + repeat split; try lia; discriminate.
  - cbn. repeat split; try lia; discriminate.
Qed.

Lemma store_length_step_witness :
  ∃ item_id,
    DELETE_item 1 = DELETE_item item_id
    ∧ status (fst (handle (DELETE_item 1) [mkItem 1 (JStr "apple")])) = 200.
Proof.
  refine (proj2 (proj2 (store_length_step (DELETE_item 1)
                          [mkItem 1 (JStr "apple")])) _).
  vm_compute. lia.
Defined.
